(** * Hypnothera community manager

    A shallow embedding of [hypnothera_community_manager.py]: the content
    catalog, the post generator, the run-state store and the daily routine
    controller, with the browser driver, the clock, the random source and the
    state file made explicit.

    Conventions of the embedding:
    - the browser driver, [datetime.now()], [random.choice], [os.getenv] and the
      file system are external; what they answer is read from an environment
      [Env], and what the program does to them is appended to a trace of
      [Event]s kept in the program state [St];
    - [time.sleep] has no counterpart (the embedding has no notion of duration);
    - a Python exception is the [Raise] outcome of the [result] type. *)

From Stdlib Require Import String Ascii List ZArith Bool Lia.
Import ListNotations.
Local Open Scope string_scope.
Local Open Scope list_scope.

(** ** Outcomes *)

Inductive result (A : Type) : Type :=
| Ret (a : A)
| Raise (exn : string).
Arguments Ret {A} a.
Arguments Raise {A} exn.

(** ** Python strings *)

Module PyStr.

(** The double-quote character, for catalog texts that quote speech. *)
Definition dq : string := String "034"%char EmptyString.

Definition lower_ascii (c : ascii) : ascii :=
  let n := nat_of_ascii c in
  if (65 <=? n)%nat && (n <=? 90)%nat then ascii_of_nat (n + 32) else c.

(** [str.lower] on ASCII text. *)
Fixpoint lower (s : string) : string :=
  match s with
  | EmptyString => EmptyString
  | String c r => String (lower_ascii c) (lower r)
  end.

(** [str.startswith]. *)
Definition startswith (s p : string) : bool := String.prefix p s.

Fixpoint kw_lookup (k : string) (kw : list (string * string)) : option string :=
  match kw with
  | [] => None
  | (k', v) :: r => if String.eqb k k' then Some v else kw_lookup k r
  end.

Definition is_open (c : ascii) : bool := Ascii.eqb c "{"%char.
Definition is_close (c : ascii) : bool := Ascii.eqb c "}"%char.

(** Characters that start a conversion, a format spec or an attribute or
    index path inside a replacement field.  The catalog uses none of them. *)
Definition is_field_syntax (c : ascii) : bool :=
  Ascii.eqb c "!"%char || Ascii.eqb c ":"%char
  || Ascii.eqb c "."%char || Ascii.eqb c "["%char.

(** [template.format] with keyword arguments [kw]: [field] is [Some name]
    while the scanner is inside a replacement field whose name read so far
    is [name].  Doubled
    braces are literal braces; a field whose name is no keyword raises
    [KeyError]; inserted values are not scanned again. *)
Fixpoint format_from (s : string) (field : option string)
         (kw : list (string * string)) : result string :=
  match s with
  | EmptyString =>
      match field with
      | None => Ret EmptyString
      | Some _ => Raise "ValueError: expected '}' before end of string"
      end
  | String c rest =>
      match field with
      | Some name =>
          if is_close c then
            match kw_lookup name kw with
            | Some v =>
                match format_from rest None kw with
                | Ret out => Ret (v ++ out)%string
                | Raise e => Raise e
                end
            | None => Raise ("KeyError: " ++ name)%string
            end
          else if is_open c then Raise "ValueError: unexpected '{' in field name"
          else if is_field_syntax c then Raise "format: field syntax outside the model"
          else format_from rest (Some (name ++ String c EmptyString)%string) kw
      | None =>
          if is_open c then
            match rest with
            | String c2 rest2 =>
                if is_open c2 then
                  match format_from rest2 None kw with
                  | Ret out => Ret (String c out)
                  | Raise e => Raise e
                  end
                else format_from rest (Some EmptyString) kw
            | EmptyString => Raise "ValueError: Single '{' encountered in format string"
            end
          else if is_close c then
            match rest with
            | String c2 rest2 =>
                if is_close c2 then
                  match format_from rest2 None kw with
                  | Ret out => Ret (String c out)
                  | Raise e => Raise e
                  end
                else Raise "ValueError: Single '}' encountered in format string"
            | EmptyString => Raise "ValueError: Single '}' encountered in format string"
            end
          else
            match format_from rest None kw with
            | Ret out => Ret (String c out)
            | Raise e => Raise e
            end
      end
  end.

Definition format (template : string) (kw : list (string * string)) : result string :=
  format_from template None kw.

(** A named-placeholder token: an opening brace with a closing brace
    somewhere after it. *)
Fixpoint has_placeholder_from (s : string) (opened : bool) : bool :=
  match s with
  | EmptyString => false
  | String c r =>
      if opened && is_close c then true
      else has_placeholder_from r (opened || is_open c)
  end.

Definition has_placeholder (s : string) : bool := has_placeholder_from s false.

End PyStr.

(** ** JSON values and Python dictionaries *)

#[local] Set Warnings "-register-all".

Inductive json : Type :=
| JNull
| JBool (b : bool)
| JInt (n : Z)
| JFloat (literal : string)
| JStr (s : string)
| JList (l : list json)
| JDict (kv : list (string * json)).

Module PyDict.

(** A [dict] with string keys, in insertion order. *)
Fixpoint lookup (k : string) (kv : list (string * json)) : option json :=
  match kv with
  | [] => None
  | (k', v) :: r => if String.eqb k k' then Some v else lookup k r
  end.

(** [d[k] = v]: an existing key keeps its position, a new one goes last. *)
Fixpoint store (k : string) (v : json) (kv : list (string * json))
  : list (string * json) :=
  match kv with
  | [] => [(k, v)]
  | (k', v') :: r =>
      if String.eqb k k' then (k', v) :: r else (k', v') :: store k v r
  end.

(** [obj.get(k)]: only a dict has the method. *)
Definition get (obj : json) (k : string) : result (option json) :=
  match obj with
  | JDict kv => Ret (lookup k kv)
  | _ => Raise "AttributeError: object has no attribute 'get'"
  end.

(** [obj[k] = v] for a string key [k]. *)
Definition setitem (obj : json) (k : string) (v : json) : result json :=
  match obj with
  | JDict kv => Ret (JDict (store k v kv))
  | _ => Raise "TypeError: object does not support item assignment"
  end.

(** [obj[k]]. *)
Definition getitem (obj : json) (k : string) : result json :=
  match obj with
  | JDict kv =>
      match lookup k kv with
      | Some v => Ret v
      | None => Raise ("KeyError: " ++ k)%string
      end
  | _ => Raise "TypeError: object is not subscriptable by a string"
  end.

(** [value == s] for a Python string [s]; [None] stands for a missing key. *)
Definition eq_str (value : option json) (s : string) : bool :=
  match value with
  | Some (JStr s') => String.eqb s' s
  | _ => false
  end.

End PyDict.

(** ** Data model *)

Record CommunityPost : Type := mkPost {
  title : string;
  content : string;
  post_type : string;
  flair : string;
  pin : bool
}.

Record WeeklyThread : Type := mkWeekly {
  wt_day : string;
  wt_title : string;
  wt_content : string;
  wt_flair : string;
  wt_pin : bool
}.

Record DailyTemplate : Type := mkTemplate {
  tpl_type : string;
  tpl_title : string;
  tpl_content : string;
  tpl_flair : string
}.

Record Tip : Type := mkTip {
  tip_title : string;
  tip_content : string
}.

(** ** The clock *)

Inductive weekday : Type :=
| Monday | Tuesday | Wednesday | Thursday | Friday | Saturday | Sunday.

(** [strftime('%A')] (C locale). *)
Definition strftime_A (d : weekday) : string :=
  match d with
  | Monday => "Monday" | Tuesday => "Tuesday" | Wednesday => "Wednesday"
  | Thursday => "Thursday" | Friday => "Friday" | Saturday => "Saturday"
  | Sunday => "Sunday"
  end.

(** One reading of [datetime.now()], through the views the program takes of it:
    [strftime('%Y-%m-%d')], the weekday, [.hour] and [.isoformat()]. *)
Record DateTime : Type := mkDateTime {
  dt_date : string;
  dt_weekday : weekday;
  dt_hour : Z;
  dt_iso : string
}.

(** ** What the browser shows *)

(** How replying to one comment ends: the reply button or the reply box is
    not found (before a text is chosen), typing or submitting raises (after a
    text was chosen), or the reply is submitted. *)
Inductive ReplyOutcome : Type :=
| ReplyControlsMissing
| ReplyTypingRaises
| ReplyPosted.

Record Comment : Type := mkComment {
  c_author : option string;   (* [None]: the author link is not found *)
  c_has_replies : bool;       (* a [comment-replies] element exists *)
  c_reply : ReplyOutcome
}.

(** The body link of a post container in the listing. *)
Inductive Href : Type :=
| LinkMissing                 (* [find_element] raises *)
| HrefAbsent                  (* [get_attribute('href')] is [None] *)
| HrefIs (url : string).

(** How one submission through the submit form ends. *)
Inductive SubmitOutcome : Type :=
| SubmitRaises (exn : string)
| SubmitUrlCheckFails
| SubmitAccepted.

(** ** The state file *)

Inductive StateFile : Type :=
| FileMissing
| FileGarbage (raw : string)  (* exists; [read_text] or [json.loads] raises *)
| FileJson (j : json).        (* exists; its text parses to [j] *)

(** How [write_text] ends.  It opens the file with mode ['w'], which empties
    it, and then writes: a failure of the open leaves the file as it was, a
    failure after the open leaves the text written so far.  That text is a
    proper prefix of the dump of a dict, which does not parse. *)
Inductive WriteOutcome : Type :=
| WriteDone
| WriteOpenFails
| WriteBreaksOff (part : string).

(** ** Environment, events and program state *)

Record Env : Type := mkEnv {
  env_now : nat -> DateTime;            (* the k-th reading of the clock *)
  env_choice : nat -> nat;              (* the k-th random draw *)
  env_username : option string;         (* REDDIT_USERNAME *)
  env_setup_ok : bool;                  (* [webdriver.Chrome(...)] returns *)
  env_cdp_ok : bool;                    (* [execute_cdp_cmd] returns *)
  env_login_get_ok : bool;              (* [driver.get] of the login page returns *)
  env_login_ok : bool;                  (* what the [try] block of [login] gives *)
  env_submit : nat -> SubmitOutcome;    (* the k-th submission *)
  env_pin_ok : bool;                    (* the pin menu is found *)
  env_listing_get_ok : bool;            (* [driver.get] of /new/ returns *)
  env_listing : option (list Href);     (* post containers of /new/; [None]: lookup raises *)
  env_page : string -> option (list Comment); (* comments at a URL; [None]: raises *)
  env_write : WriteOutcome;             (* how writing the state file ends *)
  env_quit_ok : bool                    (* [driver.quit()] returns *)
}.

Inductive LogLine : Type :=
| LStart
| LCouldNotLoad
| LCouldNotSave
| LAlreadyRan
| LSettingUp
| LLoggingIn
| LLoginFailed
| LCreating (p : CommunityPost)
| LDryRunPost (p : CommunityPost)
| LPostCreated
| LPostFailed (msg : string)
| LPinning
| LDryRunPin
| LPinned
| LCouldNotPin
| LPostedWeekly (t : string)
| LFailedWeekly (err : option string)
| LPostedDaily
| LFailedDaily (err : option string)
| LLooking (max_replies : Z)
| LDryRunReplies
| LFoundPosts (n : nat)
| LReplied (made max_replies : Z)
| LPostSkipped (url : option string)
| LMadeReplies (made : Z)
| LReplyError
| LComplete (posts_made : Z).

Inductive Event : Type :=
| EOpenSession                         (* [webdriver.Chrome(...)] *)
| ELogin                               (* the login form is filled and sent *)
| ESubmitAttempt (p : CommunityPost)   (* the submit form is filled for [p] *)
| EPinAttempt                          (* the moderator menu is looked up *)
| ENavigate (url : option string)      (* [driver.get(url)] in the reply step *)
| EReplyAttempt (c : Comment)          (* the reply controls of [c] are looked up *)
| EReplySubmit (c : Comment) (text : string)
| ESaveState (j : json)                (* the state file is rewritten with [j] *)
| ESaveBroken (part : string)          (* the write breaks off; the file holds [part] *)
| ECloseSession                        (* [driver.quit()] is called *)
| ELog (l : LogLine).

Record St : Type := mkSt {
  st_ticks : nat;          (* clock readings taken so far *)
  st_draws : nat;          (* random draws taken so far *)
  st_subs : nat;           (* submissions made so far *)
  st_driver : bool;        (* [self.driver] holds a session *)
  st_errors : list string; (* [self.errors] *)
  st_file : StateFile;
  st_trace : list Event
}.

(** The state of a fresh process over a given state file. *)
Definition init_state (f : StateFile) : St := mkSt 0 0 0 false [] f [].

(** ** The program monad *)

Definition M (A : Type) : Type := St -> result A * St.

Definition ret {A} (a : A) : M A := fun st => (Ret a, st).

Definition raise {A} (exn : string) : M A := fun st => (Raise exn, st).

Definition bind {A B} (m : M A) (k : A -> M B) : M B :=
  fun st =>
    match m st with
    | (Ret a, st') => k a st'
    | (Raise e, st') => (Raise e, st')
    end.

Notation "x <- m ;; k" := (bind m (fun x => k))
  (at level 61, m at next level, right associativity).
Notation "m ;;; k" := (bind m (fun _ => k))
  (at level 61, right associativity).

(** A pure computation that may raise, run inside the monad. *)
Definition lift {A} (r : result A) : M A := fun st => (r, st).

(** [try: body finally: fin]. *)
Definition try_finally {A} (body : M A) (fin : M unit) : M A :=
  fun st =>
    match body st with
    | (r, st') =>
        match fin st' with
        | (Ret _, st'') => (r, st'')
        | (Raise e, st'') => (Raise e, st'')
        end
    end.

(** [try: body except Exception: handler]. *)
Definition try_except {A} (body : M A) (handler : string -> M A) : M A :=
  fun st =>
    match body st with
    | (Ret a, st') => (Ret a, st')
    | (Raise e, st') => handler e st'
    end.

Definition emit (e : Event) : M unit :=
  fun st => (Ret tt,
             mkSt (st_ticks st) (st_draws st) (st_subs st) (st_driver st)
                  (st_errors st) (st_file st) (st_trace st ++ [e])).

Definition log (l : LogLine) : M unit := emit (ELog l).

(** ** Content catalog *)

Definition SUBREDDIT : string := "Hypnotheraai".
Definition MAX_POSTS_TO_CHECK : nat := 10.

Definition WEEKLY_THREADS : list WeeklyThread := [
  mkWeekly "monday"
    "Weekly Manifestation Thread - What are you working on?"
    "Welcome to the weekly manifestation thread!

This is a space to share:
- What you're working on manifesting
- Success stories from the past week
- Challenges you're facing
- Tips that have worked for you

Let's support each other in achieving our goals. 🎯"
    "Discussion" true;
  mkWeekly "wednesday"
    "Sleep Support Wednesday - Share your sleep wins"
    "Mid-week check in! How's your sleep been?

Share:
- Sleep wins from this week
- Sessions that helped you
- Questions about sleep hypnosis
- Tips for better rest

Sleep is the foundation of everything. Let's talk about it. 💤"
    "Discussion" false;
  mkWeekly "friday"
    "Free Session Friday - Featured hypnosis of the week"
    "Happy Friday! Here's this week's featured free session:

🎙 **Session Title**
*Category: [Category]*
*Duration: [X] minutes*

This session focuses on [description].

Try it this weekend and let us know how it goes!

[Link to session]

---

Want more? Check out our full library at hypnothera.ai"
    "Featured" true
].

Definition DAILY_CONTENT_TEMPLATES : list DailyTemplate := [
  mkTemplate "tip"
    "Quick Hypnosis Tip: {tip_title}"
    "{tip_content}

What's your favorite hypnosis tip? Share in the comments!

---

New to hypnosis? Try Hypnothera free at hypnothera.ai"
    "Tips & Tricks";
  mkTemplate "success_story"
    "Success Story: {story_title}"
    "{story_content}

Have you had success with hypnosis? We'd love to hear your story!

---

Start your own success story at hypnothera.ai"
    "Success Story";
  mkTemplate "question"
    "Question of the Day: {question}"
    "{context}

Drop your answers in the comments!

---

Want personalized hypnosis? Check out hypnothera.ai"
    "Discussion";
  mkTemplate "feature_highlight"
    "Feature Spotlight: {feature_name}"
    "Did you know Hypnothera has {feature_name}?

{feature_description}

Try it out: hypnothera.ai

---

What feature would you like to see next? Let us know!"
    "Announcement"
].

Definition TIPS : list Tip := [
  mkTip "Start with 60 seconds"
    "Don't try to jump into 20-minute sessions. Start with 60 seconds. Make it so easy you can't say no. Once that sticks, scale up.";
  mkTip "Same time, same place"
    "Your brain loves patterns. Do your hypnosis at the same time and place every day. It becomes a trigger for relaxation.";
  mkTip "Stack your habits"
    ("Attach hypnosis to an existing habit. " ++ PyStr.dq
     ++ "After I brush my teeth, I'll do 5 minutes of hypnosis." ++ PyStr.dq
     ++ " This is habit stacking.")%string;
  mkTip "Track it visibly"
    "Use a calendar. Put an X on every day you do hypnosis. Don't break the chain. Visual feedback is powerful.";
  mkTip "Headphones matter"
    "Good headphones make a huge difference. Noise-canceling is ideal, but even basic earbuds work better than phone speakers."
].

(** The local tables of [generate_daily_post] and [generate_reply]. *)

Definition story_title : string := "From Insomnia to Restful Sleep".
Definition story_content : string :=
  "One of our users shared: 'I hadn't slept through the night in 3 years. After 2 weeks of nightly sleep hypnosis sessions, I'm sleeping 7 hours straight. It's changed my life.'".

Definition questions : list (string * string) := [
  ("What's your biggest challenge with hypnosis?", "We all hit roadblocks. What's been your biggest challenge with hypnosis or manifestation?");
  ("How did you discover hypnosis?", "Everyone has an origin story. How did you first get into hypnosis?");
  ("What's your favorite hypnosis category?", "Sleep? Confidence? Manifestation? What's your go-to?");
  ("What time of day do you prefer hypnosis?", "Morning routine or evening wind-down? When do you find hypnosis most effective?");
  ("Share your 'aha' moment", "When did hypnosis finally click for you? What made it all make sense?");
  ("What's one myth about hypnosis you believed?", "Let's bust some myths together. What misconception did you have?");
  ("How do you track your progress?", "Journals? Apps? Dreams? How do you know hypnosis is working for you?");
  ("What's your pre-hypnosis ritual?", "Do you have a routine before sessions? Share your setup!");
  ("Hypnosis fails - let's talk about them", "Not every session works. What hasn't worked for you and why?");
  ("Partner reactions to hypnosis?", "How did your friends/family react when you started hypnosis?")
].

Definition features : list (string * string) := [
  ("AI-Powered Personalization", "Every session is customized to your specific needs using advanced AI. No generic scripts.");
  ("Voice Selection", "Choose from dozens of voices across multiple languages. Find the voice that resonates with you.");
  ("Progress Tracking", "Track your hypnosis journey with detailed stats and insights.")
].

Definition replies : list string := [
  "Thanks for sharing! This is exactly what this community is for.";
  "Great insight! Have you noticed any other patterns?";
  "Love this! Keep us posted on your progress.";
  "Thanks for being part of the community! 🎯";
  "This resonates with a lot of people here. Appreciate you sharing.";
  "Have you tried [related feature/session]? Might help with this.";
  "Solid advice! Thanks for contributing to the discussion."
].

(** ** The program *)

Section Program.

Variable E : Env.

(** *** Reading the environment *)

(** [datetime.now()]. *)
Definition now : M DateTime :=
  fun st => (Ret (env_now E (st_ticks st)),
             mkSt (S (st_ticks st)) (st_draws st) (st_subs st) (st_driver st)
                  (st_errors st) (st_file st) (st_trace st)).

(** [random.choice(seq)]. *)
Definition choice {A} (seq : list A) : M A :=
  fun st =>
    match nth_error seq (env_choice E (st_draws st) mod length seq) with
    | Some x => (Ret x,
                 mkSt (st_ticks st) (S (st_draws st)) (st_subs st) (st_driver st)
                      (st_errors st) (st_file st) (st_trace st))
    | None => (Raise "IndexError: Cannot choose from an empty sequence", st)
    end.

(** What the driver reports for the next submission. *)
Definition next_submission : M SubmitOutcome :=
  fun st => (Ret (env_submit E (st_subs st)),
             mkSt (st_ticks st) (st_draws st) (S (st_subs st)) (st_driver st)
                  (st_errors st) (st_file st) (st_trace st)).

(** [self.errors.append(msg)]. *)
Definition push_error (msg : string) : M unit :=
  fun st => (Ret tt,
             mkSt (st_ticks st) (st_draws st) (st_subs st) (st_driver st)
                  (st_errors st ++ [msg]) (st_file st) (st_trace st)).

(** *** Run-state store *)

(** The file is read only if it exists; a failure to read or to parse it is
    logged and gives the empty dict. *)
Definition load_state : M json :=
  fun st =>
    match st_file st with
    | FileMissing => ret (JDict []) st
    | FileGarbage _ => (log LCouldNotLoad ;;; ret (JDict [])) st
    | FileJson j => ret j st
    end.

(** What a write leaves in the state file, with the event that records it. *)
Definition write_file (f : StateFile) (e : Event) : M unit :=
  fun st => (Ret tt,
             mkSt (st_ticks st) (st_draws st) (st_subs st) (st_driver st)
                  (st_errors st) f (st_trace st ++ [e])).

(** A failed write is logged and not raised.  The file is untouched only if
    the open failed; a write that breaks off after the open leaves the
    partial text. *)
Definition save_state (state : json) : M unit :=
  match env_write E with
  | WriteDone => write_file (FileJson state) (ESaveState state)
  | WriteOpenFails => log LCouldNotSave
  | WriteBreaksOff part =>
      write_file (FileGarbage part) (ESaveBroken part) ;;;
      log LCouldNotSave
  end.

(** *** Browser session *)

(** The assignment to [self.driver] of the session [setup_browser]
    returned. *)
Definition set_driver : M unit :=
  fun st => (Ret tt,
             mkSt (st_ticks st) (st_draws st) (st_subs st) true
                  (st_errors st) (st_file st) (st_trace st)).

(** [self.driver = self.setup_browser()].  The browser is started, then a
    CDP command is sent to it, and only then is the session returned and
    assigned.  When the browser does not start nothing is open; when the CDP
    command raises the browser is open and [self.driver] is still unset. *)
Definition setup_browser : M unit :=
  log LSettingUp ;;;
  if env_setup_ok E then
    emit EOpenSession ;;;
    if env_cdp_ok E then set_driver
    else raise "WebDriverException"
  else raise "WebDriverException".

(** The login page is opened outside the [try] block, so a failure to open
    it leaves [login] as an exception.  Then the form is filled and sent;
    exceptions of that part are caught and give [False]. *)
Definition login : M bool :=
  log LLoggingIn ;;;
  if env_login_get_ok E then
    emit ELogin ;;;
    ret (env_login_ok E)
  else raise "WebDriverException".

(** The [finally] clause of the routine: [quit()] is called when
    [self.driver] holds a session, and an exception it raises is not
    caught. *)
Definition quit_driver : M unit :=
  fun st =>
    if st_driver st then
      (emit ECloseSession ;;;
       if env_quit_ok E then ret tt else raise "WebDriverException") st
    else ret tt st.

(** *** Posting *)

(** Never raises: a failure to find the moderator menu is logged. *)
Definition pin_post (dry_run : bool) : M unit :=
  log LPinning ;;;
  if dry_run then log LDryRunPin
  else
    emit EPinAttempt ;;;
    if env_pin_ok E then log LPinned else log LCouldNotPin.

(** In dry-run the post is logged and reported as created.  Otherwise the
    submit form is filled and sent; the post counts as created when the
    browser lands on a [/comments/] URL, and is then pinned if it asks for it.
    An exception is caught, recorded in [self.errors] and reported as a
    failure.  (A flair that cannot be set is only logged.) *)
Definition create_post (dry_run : bool) (post : CommunityPost)
  : M (bool * option string) :=
  log (LCreating post) ;;;
  if dry_run then
    log (LDryRunPost post) ;;;
    ret (true, None)
  else
    emit (ESubmitAttempt post) ;;;
    outcome <- next_submission ;;
    match outcome with
    | SubmitAccepted =>
        log LPostCreated ;;;
        (if pin post then pin_post dry_run else ret tt) ;;;
        ret (true, None)
    | SubmitUrlCheckFails =>
        let error_msg := "Post may not have been created - URL check failed" in
        log (LPostFailed error_msg) ;;;
        ret (false, Some error_msg)
    | SubmitRaises e =>
        let error_msg := ("Error creating post: " ++ e)%string in
        log (LPostFailed error_msg) ;;;
        push_error error_msg ;;;
        ret (false, Some error_msg)
    end.

(** *** Post generator *)

(** A template is drawn, then, by its type, a tip, the fixed story, a question
    or a feature; the last branch takes every other type. *)
Definition generate_daily_post : M CommunityPost :=
  template <- choice DAILY_CONTENT_TEMPLATES ;;
  filled <-
    (if tpl_type template =? "tip" then
       tip <- choice TIPS ;;
       t <- lift (PyStr.format (tpl_title template) [("tip_title", tip_title tip)]) ;;
       c <- lift (PyStr.format (tpl_content template) [("tip_content", tip_content tip)]) ;;
       ret (t, c)
     else if tpl_type template =? "success_story" then
       t <- lift (PyStr.format (tpl_title template) [("story_title", story_title)]) ;;
       c <- lift (PyStr.format (tpl_content template) [("story_content", story_content)]) ;;
       ret (t, c)
     else if tpl_type template =? "question" then
       qc <- choice questions ;;
       t <- lift (PyStr.format (tpl_title template) [("question", fst qc)]) ;;
       c <- lift (PyStr.format (tpl_content template) [("context", snd qc)]) ;;
       ret (t, c)
     else
       f <- choice features ;;
       t <- lift (PyStr.format (tpl_title template) [("feature_name", fst f)]) ;;
       c <- lift (PyStr.format (tpl_content template)
                    [("feature_name", fst f); ("feature_description", snd f)]) ;;
       ret (t, c)) ;;
  ret (mkPost (fst filled) (snd filled) (tpl_type template) (tpl_flair template) false).

Definition generate_reply : M string := choice replies.

(** *** Replying to comments *)

(** The URL kept for one post container: [None] when the container is
    skipped because its link is not found, [Some None] when the link has no
    [href]. *)
Definition post_url_of (link : Href) : option (option string) :=
  match link with
  | LinkMissing => None
  | HrefAbsent => Some None
  | HrefIs u =>
      if negb (u =? "") && negb (PyStr.startswith u "http")
      then Some (Some ("https://www.reddit.com" ++ u)%string)
      else Some (Some u)
  end.

Fixpoint collect_urls (post_elements : list Href) : list (option string) :=
  match post_elements with
  | [] => []
  | link :: rest =>
      match post_url_of link with
      | Some u => u :: collect_urls rest
      | None => collect_urls rest
      end
  end.

(** [author == os.getenv('REDDIT_USERNAME')], false when the author link is
    not found. *)
Definition own_comment (c : Comment) : bool :=
  match c_author c, env_username E with
  | Some a, Some u => a =? u
  | _, _ => false
  end.

(** The comments found after [driver.get(post_url)]. *)
Definition find_comments (post_url : option string) : M (list Comment) :=
  match post_url with
  | None => raise "InvalidArgumentException"
  | Some u =>
      match env_page E u with
      | Some comments => ret comments
      | None => raise "WebDriverException"
      end
  end.

(** The loop over the comments of one post.  An exception raised while
    replying leaves the loop and is caught by the handler of the enclosing
    post, which goes on with the next post; the counter keeps the replies
    made before it.  The loop therefore returns the counter and never
    raises. *)
Fixpoint reply_in_comments (max_replies : Z) (post_url : option string)
         (comments : list Comment) (replies_made : Z) : M Z :=
  match comments with
  | [] => ret replies_made
  | comment :: rest =>
      if own_comment comment then
        reply_in_comments max_replies post_url rest replies_made
      else if c_has_replies comment then
        reply_in_comments max_replies post_url rest replies_made
      else
        emit (EReplyAttempt comment) ;;;
        match c_reply comment with
        | ReplyControlsMissing =>
            log (LPostSkipped post_url) ;;;
            ret replies_made
        | ReplyTypingRaises =>
            _ <- generate_reply ;;
            log (LPostSkipped post_url) ;;;
            ret replies_made
        | ReplyPosted =>
            reply_text <- generate_reply ;;
            emit (EReplySubmit comment reply_text) ;;;
            let replies_made := (replies_made + 1)%Z in
            log (LReplied replies_made max_replies) ;;;
            if (replies_made >=? max_replies)%Z then ret replies_made
            else reply_in_comments max_replies post_url rest replies_made
        end
  end.

(** The loop over the collected post URLs. *)
Fixpoint reply_in_posts (max_replies : Z) (post_urls : list (option string))
         (replies_made : Z) : M Z :=
  match post_urls with
  | [] => ret replies_made
  | post_url :: rest =>
      if (replies_made >=? max_replies)%Z then ret replies_made
      else
        made <- try_except
                  (emit (ENavigate post_url) ;;;
                   comments <- find_comments post_url ;;
                   reply_in_comments max_replies post_url comments replies_made)
                  (fun _ => log (LPostSkipped post_url) ;;; ret replies_made) ;;
        reply_in_posts max_replies rest made
  end.

Definition listing_url : string :=
  ("https://www.reddit.com/r/" ++ SUBREDDIT ++ "/new/")%string.

(** In dry-run the step is only logged.  Otherwise the listing is opened,
    outside the [try] block: a failure to open it leaves the step as an
    exception.  Then the first ten post containers are kept, and an exception
    raised outside the per-post handler is logged. *)
Definition reply_to_comments (dry_run : bool) (max_replies : Z) : M unit :=
  log (LLooking max_replies) ;;;
  if dry_run then log LDryRunReplies
  else
    emit (ENavigate (Some listing_url)) ;;;
    if env_listing_get_ok E then
      try_except
        (match env_listing E with
         | None => raise "WebDriverException"
         | Some containers =>
             let post_urls := collect_urls (firstn 10 containers) in
             log (LFoundPosts (length post_urls)) ;;;
             replies_made <- reply_in_posts max_replies post_urls 0%Z ;;
             log (LMadeReplies replies_made)
         end)
        (fun _ => log LReplyError)
    else raise "WebDriverException".


(** *** Daily routine *)

Definition weekly_post (weekly : WeeklyThread) : CommunityPost :=
  mkPost (wt_title weekly) (wt_content weekly) "weekly" (wt_flair weekly)
         (wt_pin weekly).

(** The loop that posts the weekly threads. *)
Fixpoint post_weekly_threads (dry_run : bool) (today_name : string)
         (threads : list WeeklyThread) (posts_made : Z) : M Z :=
  match threads with
  | [] => ret posts_made
  | weekly :: rest =>
      if wt_day weekly =? today_name then
        t <- now ;;
        if (dt_hour t <? 12)%Z then
          r <- create_post dry_run (weekly_post weekly) ;;
          made <- (if fst r then
                     log (LPostedWeekly (wt_title weekly)) ;;;
                     ret (posts_made + 1)%Z
                   else
                     log (LFailedWeekly (snd r)) ;;;
                     ret posts_made) ;;
          post_weekly_threads dry_run today_name rest made
        else post_weekly_threads dry_run today_name rest posts_made
      else post_weekly_threads dry_run today_name rest posts_made
  end.

(** The daily post: made when no post was counted so far, or at 14:00 or
    later (the clock is read only in the second case). *)
Definition post_daily_content (dry_run : bool) (posts_made : Z) : M Z :=
  due <- (if (posts_made =? 0)%Z then ret true
          else t <- now ;; ret (dt_hour t >=? 14)%Z) ;;
  if due : bool then
    daily_post <- generate_daily_post ;;
    r <- create_post dry_run daily_post ;;
    if fst r then
      log LPostedDaily ;;;
      ret (posts_made + 1)%Z
    else
      log (LFailedDaily (snd r)) ;;;
      ret posts_made
  else ret posts_made.

(** The loop that records the weekly threads in the state.  The dict kept
    under ['weekly_threads'] is shared with [state], so the assignment is
    visible in [state]. *)
Fixpoint track_weekly_threads (today_name : string) (posts_made : Z)
         (threads : list WeeklyThread) (state : json) : M json :=
  match threads with
  | [] => ret state
  | weekly :: rest =>
      if (wt_day weekly =? today_name) && (posts_made >? 0)%Z then
        t <- now ;;
        log_dict <- lift (PyDict.getitem state "weekly_threads") ;;
        log_dict <- lift (PyDict.setitem log_dict (wt_day weekly) (JStr (dt_iso t))) ;;
        state <- lift (PyDict.setitem state "weekly_threads" log_dict) ;;
        track_weekly_threads today_name posts_made rest state
      else track_weekly_threads today_name posts_made rest state
  end.

(** The block under [# Update state]: the three keys are set, the weekly
    threads are recorded and the state is written. *)
Definition update_state (today today_name : string) (posts_made : Z)
           (state : json) : M unit :=
  state <- lift (PyDict.setitem state "last_run" (JStr today)) ;;
  state <- lift (PyDict.setitem state "posts_made" (JInt posts_made)) ;;
  previous <- lift (PyDict.get state "weekly_threads") ;;
  state <- lift (PyDict.setitem state "weekly_threads"
                   (match previous with Some v => v | None => JDict [] end)) ;;
  state <- track_weekly_threads today_name posts_made WEEKLY_THREADS state ;;
  save_state state.

(** The body of the [try] statement of the routine. *)
Definition session (dry_run : bool) (today today_name : string)
           (state : json) : M unit :=
  setup_browser ;;;
  logged_in <- login ;;
  if negb logged_in then log LLoginFailed
  else
    posts_made <- post_weekly_threads dry_run today_name WEEKLY_THREADS 0%Z ;;
    posts_made <- post_daily_content dry_run posts_made ;;
    reply_to_comments dry_run 3%Z ;;;
    update_state today today_name posts_made state ;;;
    log (LComplete posts_made).

(** The routine: the duplicate check on the loaded state, then one session
    under [try ... finally]. *)
Definition run_daily_routine (dry_run : bool) : M unit :=
  log LStart ;;;
  state <- load_state ;;
  t <- now ;;
  let today := dt_date t in
  last_run <- lift (PyDict.get state "last_run") ;;
  if PyDict.eq_str last_run today && negb dry_run then
    log LAlreadyRan
  else
    t <- now ;;
    let today_name := PyStr.lower (strftime_A (dt_weekday t)) in
    try_finally (session dry_run today today_name state) quit_driver.

End Program.

(** One invocation of the process on a state file. *)
Definition invoke (E : Env) (dry_run : bool) (f : StateFile) : result unit * St :=
  run_daily_routine E dry_run (init_state f).

(** ** Observations on traces *)

(** The posts handed to [create_post], in order. *)
Fixpoint created_posts (tr : list Event) : list CommunityPost :=
  match tr with
  | [] => []
  | ELog (LCreating p) :: r => p :: created_posts r
  | _ :: r => created_posts r
  end.


(** The comments a reply was submitted to, in order. *)
Fixpoint replies_submitted (tr : list Event) : list Comment :=
  match tr with
  | [] => []
  | EReplySubmit c _ :: r => c :: replies_submitted r
  | _ :: r => replies_submitted r
  end.

(** Events by which the driver submits, pins, navigates for replies or
    replies. *)
Definition posting_action (e : Event) : bool :=
  match e with
  | ESubmitAttempt _ | EPinAttempt | ENavigate _
  | EReplyAttempt _ | EReplySubmit _ _ => true
  | _ => false
  end.

(** Events that change the state file. *)
Definition is_save (e : Event) : bool :=
  match e with
  | ESaveState _ | ESaveBroken _ => true
  | _ => false
  end.

(** ** The reply window *)

(** A comment the reply step does not skip. *)
Definition eligible (E : Env) (c : Comment) : bool :=
  negb (own_comment E c) && negb (c_has_replies c).

(** The URLs kept from the first ten post containers of the listing (none
    when the listing does not open or its containers are not found). *)
Definition window_urls (E : Env) : list (option string) :=
  if env_listing_get_ok E then
    match env_listing E with
    | Some containers => collect_urls (firstn 10 containers)
    | None => []
    end
  else [].

(** The comments of the page behind a kept URL (none when it does not load). *)
Definition page_comments (E : Env) (post_url : option string) : list Comment :=
  match post_url with
  | Some u => match env_page E u with Some cs => cs | None => [] end
  | None => []
  end.

(** The eligible comments of the window, in encounter order. *)
Definition candidates (E : Env) : list Comment :=
  filter (eligible E) (flat_map (page_comments E) (window_urls E)).

(** What the reply step gives back outside dry-run: nothing, or the exception
    of the listing that did not open. *)
Definition reply_outcome (E : Env) : result unit :=
  if env_listing_get_ok E then Ret tt else Raise "WebDriverException".

(** ** Specification predicates *)

(** A dict that agrees with [state] on every key the routine does not set. *)
Definition same_off_run_keys (state j : json) : Prop :=
  exists kv kv',
    state = JDict kv /\ j = JDict kv' /\
    forall k, k <> "last_run" -> k <> "posts_made" -> k <> "weekly_threads" ->
              PyDict.lookup k kv' = PyDict.lookup k kv.

(** The events one session may produce, by mode and loaded state: driver
    actions on posts and replies only outside dry-run, and a saved state only
    if it agrees with the loaded one off the run keys. *)
Definition session_event (dry_run : bool) (state : json) (e : Event) : Prop :=
  match e with
  | ESubmitAttempt _ | EPinAttempt | ENavigate _
  | EReplyAttempt _ | EReplySubmit _ _ => dry_run = false
  | ESaveState j => same_off_run_keys state j
  | ELog l => l <> LAlreadyRan
  | _ => True
  end.

(** The events of a whole run: those of a session, or the line of the
    duplicate exit. *)
Definition run_event (dry_run : bool) (state : json) (e : Event) : Prop :=
  session_event dry_run state e \/ e = ELog LAlreadyRan.

(** Events that neither act on posts or replies nor write the state. *)
Definition quiet (e : Event) : bool :=
  negb (posting_action e) && negb (is_save e).

(** The state file after a sequence of events: what the last write left. *)
Definition file_after (f : StateFile) (evs : list Event) : StateFile :=
  fold_left (fun f e => match e with
                        | ESaveState j => FileJson j
                        | ESaveBroken part => FileGarbage part
                        | _ => f
                        end)
            evs f.

(** [st'] continues the trace of [st] with events that satisfy [P], and its
    state file is the one the saves among them leave. *)
Definition extends (P : Event -> Prop) (st st' : St) : Prop :=
  exists evs,
    st_trace st' = st_trace st ++ evs /\ Forall P evs /\
    st_file st' = file_after (st_file st) evs.

(** Every event of [m] satisfies [P], and every value it returns satisfies [Q]. *)
Definition hoare {A} (P : Event -> Prop) (Q : A -> Prop) (m : M A) : Prop :=
  forall st,
    extends P st (snd (m st)) /\ (forall a, fst (m st) = Ret a -> Q a).

Definition any {A} : A -> Prop := fun _ => True.

(** What every generated daily post satisfies. *)
Definition daily_ok (p : CommunityPost) : Prop :=
  pin p = false /\
  PyStr.has_placeholder (title p) = false /\
  PyStr.has_placeholder (content p) = false /\
  In (post_type p) ["tip"; "success_story"; "question"; "feature_highlight"].

(** The value [load_state] hands to the routine for a given file. *)
Definition loaded (f : StateFile) : json :=
  match f with
  | FileJson j => j
  | _ => JDict []
  end.

(** ** Sample environments *)

Module Sample.

Definition monday_9 : DateTime :=
  mkDateTime "2024-01-01" Monday 9 "2024-01-01T09:00:00".

Definition monday_15 : DateTime :=
  mkDateTime "2024-01-01" Monday 15 "2024-01-01T15:00:00".

Definition visitor (name : string) (r : ReplyOutcome) : Comment :=
  mkComment (Some name) false r.

(** One post with four comments: the bot's own, one already answered, and
    two open ones. *)
Definition one_page (u : string) : option (list Comment) :=
  if u =? "https://www.reddit.com/r/Hypnotheraai/comments/1/" then
    Some [visitor "hypnobot" ReplyPosted;
          mkComment (Some "ann") true ReplyPosted;
          visitor "bob" ReplyPosted;
          visitor "cy" ReplyPosted]
  else None.

(** Monday 09:00, everything works. *)
Definition calm : Env :=
  mkEnv (fun _ => monday_9) (fun k => k) (Some "hypnobot") true true true true
        (fun _ => SubmitAccepted) true true
        (Some [HrefIs "/r/Hypnotheraai/comments/1/"]) one_page WriteDone true.

(** Monday 09:00, the login is refused. *)
Definition locked_out : Env :=
  mkEnv (fun _ => monday_9) (fun k => k) (Some "hypnobot") true true true false
        (fun _ => SubmitAccepted) true true
        (Some [HrefIs "/r/Hypnotheraai/comments/1/"]) one_page WriteDone true.

(** Monday 09:00: the weekly thread is not confirmed (URL check fails), the
    daily post that follows is. *)
Definition weekly_fails : Env :=
  mkEnv (fun _ => monday_9) (fun k => k) (Some "hypnobot") true true true true
        (fun k => match k with O => SubmitUrlCheckFails | _ => SubmitAccepted end)
        true true (Some []) (fun _ => None) WriteDone true.

(** Monday 15:00: no weekly thread is due; the daily post succeeds. *)
Definition afternoon : Env :=
  mkEnv (fun _ => monday_15) (fun k => k) (Some "hypnobot") true true true true
        (fun _ => SubmitAccepted) true true (Some []) (fun _ => None)
        WriteDone true.

(** Four posts, each with one open comment whose reply controls are not
    found. *)
Definition broken_controls : Env :=
  mkEnv (fun _ => monday_9) (fun k => k) (Some "hypnobot") true true true true
        (fun _ => SubmitAccepted) true true
        (Some [HrefIs "/a"; HrefIs "/b"; HrefIs "/c"; HrefIs "/d"])
        (fun _ => Some [visitor "dee" ReplyControlsMissing]) WriteDone true.

(** Monday 09:00, an empty listing; the browser starts and the CDP command
    raises. *)
Definition stuck_devtools : Env :=
  mkEnv (fun _ => monday_9) (fun k => k) (Some "hypnobot") true false true true
        (fun _ => SubmitAccepted) true true (Some []) (fun _ => None)
        WriteDone true.

(** Monday 09:00, the posts are made and the listing does not open. *)
Definition listing_down : Env :=
  mkEnv (fun _ => monday_9) (fun k => k) (Some "hypnobot") true true true true
        (fun _ => SubmitAccepted) true false
        (Some [HrefIs "/r/Hypnotheraai/comments/1/"]) one_page WriteDone true.

(** Monday 09:00, an empty listing; the write of the state file breaks off
    after the open and leaves an empty file. *)
Definition disk_full : Env :=
  mkEnv (fun _ => monday_9) (fun k => k) (Some "hypnobot") true true true true
        (fun _ => SubmitAccepted) true true (Some []) (fun _ => None)
        (WriteBreaksOff "") true.

(** A state file left by a run on 2024-01-01, with a key of another tool. *)
Definition ran_today : StateFile :=
  FileJson (JDict [("last_run", JStr "2024-01-01"); ("posts_made", JInt 1);
                   ("note", JStr "keep me")]).

Definition yesterday : StateFile :=
  FileJson (JDict [("note", JStr "keep me"); ("last_run", JStr "2023-12-31")]).

End Sample.

(** ** Further observations and predicates *)

(** What an invocation logs before the duplicate check. *)
Definition load_prefix (f : StateFile) : list Event :=
  ELog LStart
  :: match f with
     | FileGarbage _ => [ELog LCouldNotLoad]
     | _ => []
     end.

(** The events of [create_post] and [pin_post] and of the two posting steps
    of the routine. *)
Definition post_step_event (e : Event) : bool :=
  match e with
  | ESubmitAttempt _ | EPinAttempt => true
  | ELog l =>
      match l with
      | LCreating _ | LDryRunPost _ | LPostCreated | LPostFailed _
      | LPinning | LDryRunPin | LPinned | LCouldNotPin
      | LPostedWeekly _ | LFailedWeekly _ | LPostedDaily | LFailedDaily _ => true
      | _ => false
      end
  | _ => false
  end.

(** The events of [reply_to_comments]. *)
Definition reply_step_event (e : Event) : bool :=
  match e with
  | ENavigate _ | EReplyAttempt _ | EReplySubmit _ _ => true
  | ELog l =>
      match l with
      | LLooking _ | LDryRunReplies | LFoundPosts _ | LReplied _ _
      | LPostSkipped _ | LMadeReplies _ | LReplyError => true
      | _ => false
      end
  | _ => false
  end.

(** The events of the block that updates and saves the state. *)
Definition update_step_event (e : Event) : bool :=
  match e with
  | ESaveState _ | ESaveBroken _ | ELog LCouldNotSave => true
  | _ => false
  end.

(** The events of a session outside its posting, reply and update steps. *)
Definition session_frame_event (e : Event) : bool :=
  match e with
  | EOpenSession | ELogin => true
  | ELog l =>
      match l with
      | LSettingUp | LLoggingIn | LLoginFailed | LComplete _ => true
      | _ => false
      end
  | _ => false
  end.

Definition is_creating (e : Event) : bool :=
  match e with
  | ELog (LCreating _) => true
  | _ => false
  end.

(** [m] leaves [self.driver] as it is. *)
Definition keeps_driver {A} (m : M A) : Prop :=
  forall st, st_driver (snd (m st)) = st_driver st.

(** A loaded dict whose ['weekly_threads'] entry, if any, is a dict. *)
Definition weekly_log_ok (kv : list (string * json)) : Prop :=
  PyDict.lookup "weekly_threads" kv = None
  \/ exists d, PyDict.lookup "weekly_threads" kv = Some (JDict d).

(** The weekly log the routine starts from: the loaded one, or an empty
    dict. *)
Definition weekly_log_of (kv : list (string * json)) : json :=
  match PyDict.lookup "weekly_threads" kv with
  | Some v => v
  | None => JDict []
  end.

(** The shape of a state written by a run of date [today] and weekday name
    [today_name] over the loaded dict [kv]. *)
Definition saved_shape (kv : list (string * json)) (today today_name : string)
           (j : json) : Prop :=
  exists kv' d d' n,
    j = JDict kv'
    /\ PyDict.lookup "last_run" kv' = Some (JStr today)
    /\ PyDict.lookup "posts_made" kv' = Some (JInt n)
    /\ (0 <= n <= 2)%Z
    /\ weekly_log_of kv = JDict d
    /\ PyDict.lookup "weekly_threads" kv' = Some (JDict d')
    /\ forall day, day <> today_name -> PyDict.lookup day d' = PyDict.lookup day d.

(** A saved state whose ['last_run'] is [today]. *)
Definition saves_last_run (today : string) (e : Event) : Prop :=
  forall j, e = ESaveState j ->
            exists kv', j = JDict kv'
                        /\ PyDict.lookup "last_run" kv' = Some (JStr today).

(** What the reply step may open and whom it may answer: the listing or a
    kept post URL; an eligible comment of a kept post; one of the canned
    texts. *)
Definition reply_target (E : Env) (e : Event) : Prop :=
  match e with
  | ENavigate u => u = Some listing_url \/ In u (window_urls E)
  | EReplyAttempt c =>
      eligible E c = true
      /\ In c (flat_map (page_comments E) (window_urls E))
  | EReplySubmit c text =>
      eligible E c = true
      /\ In c (flat_map (page_comments E) (window_urls E))
      /\ In text replies
  | _ => True
  end.

(** The weekly threads of the catalog scheduled for a day name. *)
Definition threads_on (today_name : string) (threads : list WeeklyThread)
  : list WeeklyThread :=
  filter (fun w => wt_day w =? today_name) threads.

(** [m] hands at most [n] posts to [create_post]. *)
Definition creates {A} (n : nat) (m : M A) : Prop :=
  forall st,
    length (created_posts (st_trace (snd (m st))))
    <= length (created_posts (st_trace st)) + n.

(** [m] returns, whatever the state it starts in, a value that satisfies [Q]. *)
Definition returns {A} (Q : A -> Prop) (m : M A) : Prop :=
  forall st, exists a, fst (m st) = Ret a /\ Q a.

(** The lines that report a post as made. *)
Definition is_posted (e : Event) : bool :=
  match e with
  | ELog (LPostedWeekly _) | ELog LPostedDaily => true
  | _ => false
  end.

(** How many posts a trace reports as made. *)
Definition posted_count (tr : list Event) : nat :=
  length (filter is_posted tr).

(** The flair the catalog pairs with each kind of daily post. *)
Definition daily_flairs : list (string * string) :=
  map (fun t => (tpl_type t, tpl_flair t)) DAILY_CONTENT_TEMPLATES.

(** [m], given the counter [n], returns it raised by the number of posts its
    own events report as made; those events are posting events. *)
Definition tallies (n : Z) (m : M Z) : Prop :=
  forall st,
    exists n' st' evs,
      m st = (Ret n', st')
      /\ st_trace st' = st_trace st ++ evs
      /\ Forall (fun e => post_step_event e = true) evs
      /\ n' = (n + Z.of_nat (posted_count evs))%Z.

(** [m] submits at most [n] replies. *)
Definition submits {A} (n : nat) (m : M A) : Prop :=
  forall st,
    length (replies_submitted (st_trace (snd (m st))))
    <= length (replies_submitted (st_trace st)) + n.

Definition is_reply_submit (e : Event) : bool :=
  match e with
  | EReplySubmit _ _ => true
  | _ => false
  end.

(** The file a call of [save_state] on [s] leaves, by the way the write
    ends. *)
Definition written (E : Env) (s : json) (f : StateFile) : StateFile :=
  match env_write E with
  | WriteDone => FileJson s
  | WriteOpenFails => f
  | WriteBreaksOff part => FileGarbage part
  end.

(** The events of a call of [save_state] on [s]. *)
Definition save_events (E : Env) (s : json) : list Event :=
  match env_write E with
  | WriteDone => [ESaveState s]
  | WriteOpenFails => [ELog LCouldNotSave]
  | WriteBreaksOff part => [ESaveBroken part; ELog LCouldNotSave]
  end.

(** A write event agrees with the way the environment ends a write. *)
Definition write_event (E : Env) (e : Event) : Prop :=
  match e with
  | ESaveState _ => env_write E = WriteDone
  | ESaveBroken part => env_write E = WriteBreaksOff part
  | _ => True
  end.

(** Events that neither change the state file nor report a completed run. *)
Definition before_update (e : Event) : bool :=
  match e with
  | ESaveState _ | ESaveBroken _ | ELog (LComplete _) => false
  | _ => true
  end.

(** [m] leaves the state file as it was, with no event that changes it or
    reports a completed run, or it leaves in it what a call of [save_state]
    leaves, on a dict that agrees with [state] off the run keys. *)
Definition writes_back (E : Env) (state : json) {A} (m : M A) : Prop :=
  forall st,
    exists evs,
      st_trace (snd (m st)) = st_trace st ++ evs
      /\ ((Forall (fun e => before_update e = true) evs
           /\ st_file (snd (m st)) = st_file st)
          \/ exists s,
              same_off_run_keys state s
              /\ st_file (snd (m st)) = written E s (st_file st)).

(** [m] does not read the clock. *)
Definition keeps_ticks {A} (m : M A) : Prop :=
  forall st, st_ticks (snd (m st)) = st_ticks st.

(** The calls of a session that stand outside every [try ... except] all
    return: the browser starts, the CDP command is accepted, the login page
    opens and, if the reply step opens the listing (the login was accepted
    and the run is no dry run), the listing opens. *)
Definition session_returns (E : Env) (dry_run : bool) : bool :=
  env_setup_ok E && env_cdp_ok E && env_login_get_ok E
  && (negb (env_login_ok E) || dry_run || env_listing_get_ok E).

(** The run is stopped by the duplicate check. *)
Definition skipped (E : Env) (dry_run : bool) (kv : list (string * json)) : bool :=
  PyDict.eq_str (PyDict.lookup "last_run" kv) (dt_date (env_now E 0))
  && negb dry_run.

(** The URL kept for an [href]: a non-empty one that does not start with
    [http] is put behind the site's address. *)
Definition absolute (href : string) : string :=
  if negb (href =? "") && negb (PyStr.startswith href "http")
  then ("https://www.reddit.com" ++ href)%string
  else href.

(** * Verification *)

(** ** Dictionaries *)

Lemma lookup_store_other (k k' : string) (v : json) (kv : list (string * json)) :
  k <> k' -> PyDict.lookup k (PyDict.store k' v kv) = PyDict.lookup k kv.
Proof.
  intros Hne. induction kv as [|[k0 v0] kv IH]; simpl.
  - destruct (String.eqb_spec k k'); [contradiction | reflexivity].
  - destruct (String.eqb_spec k' k0) as [->|Hk0]; simpl.
    + destruct (String.eqb_spec k k0); [contradiction | reflexivity].
    + destruct (String.eqb_spec k k0); [reflexivity | exact IH].
Qed.

Lemma same_off_run_keys_refl (kv : list (string * json)) :
  same_off_run_keys (JDict kv) (JDict kv).
Proof. exists kv, kv. repeat split. Qed.

(** Setting one of the three run keys keeps the agreement. *)
Lemma same_off_run_keys_set (state j j' : json) (k : string) (v : json) :
  same_off_run_keys state j ->
  k = "last_run" \/ k = "posts_made" \/ k = "weekly_threads" ->
  PyDict.setitem j k v = Ret j' ->
  same_off_run_keys state j'.
Proof.
  intros (kv & kv' & -> & -> & Hsame) Hk Hset. simpl in Hset.
  injection Hset as <-.
  exists kv, (PyDict.store k v kv'). repeat split.
  intros k0 H1 H2 H3. rewrite lookup_store_other; [now apply Hsame |].
  intros ->. destruct Hk as [-> | [-> | ->]]; congruence.
Qed.

(** The first assignment of a run key to the loaded state. *)
Lemma same_off_run_keys_first (state j : json) (k : string) (v : json) :
  k = "last_run" \/ k = "posts_made" \/ k = "weekly_threads" ->
  PyDict.setitem state k v = Ret j ->
  same_off_run_keys state j.
Proof.
  intros Hk Hset. destruct state as [| | | | | |kv]; try discriminate.
  eapply same_off_run_keys_set; eauto using same_off_run_keys_refl.
Qed.

(** ** Traces *)

Lemma created_posts_app (t1 t2 : list Event) :
  created_posts (t1 ++ t2) = created_posts t1 ++ created_posts t2.
Proof.
  induction t1 as [|e t1 IH]; [reflexivity |].
  destruct e as [| | | | | | | | | |l]; simpl; try exact IH.
  destruct l; simpl; try exact IH. now rewrite IH.
Qed.


Lemma replies_submitted_app (t1 t2 : list Event) :
  replies_submitted (t1 ++ t2) = replies_submitted t1 ++ replies_submitted t2.
Proof.
  induction t1 as [|e t1 IH]; [reflexivity |].
  destruct e; simpl; try exact IH. now rewrite IH.
Qed.

(** ** Rules of the program logic *)

Lemma file_after_no_save (f : StateFile) (evs : list Event) :
  existsb is_save evs = false -> file_after f evs = f.
Proof.
  unfold file_after. revert f. induction evs as [|e evs IH]; intros f; simpl.
  - reflexivity.
  - intros [He Hevs]%orb_false_iff. rewrite IH by exact Hevs.
    destruct e; trivial; discriminate.
Qed.

Lemma extends_refl (P : Event -> Prop) (st : St) : extends P st st.
Proof. exists []. repeat split; [now rewrite app_nil_r | constructor]. Qed.

Lemma extends_trans (P : Event -> Prop) (a b c : St) :
  extends P a b -> extends P b c -> extends P a c.
Proof.
  intros (e1 & H1 & F1 & K1) (e2 & H2 & F2 & K2). exists (e1 ++ e2).
  repeat split.
  - now rewrite H2, H1, app_assoc.
  - apply Forall_app. now split.
  - unfold file_after in *. now rewrite fold_left_app, <- K1, <- K2.
Qed.

Lemma extends_impl (P P' : Event -> Prop) (a b : St) :
  (forall e, P e -> P' e) -> extends P a b -> extends P' a b.
Proof.
  intros Himp (evs & Ht & HF & HK). exists evs. repeat split; trivial.
  eapply Forall_impl; eauto.
Qed.

(** One event. *)
Lemma extends_one (P : Event -> Prop) (st st' : St) (e : Event) :
  st_trace st' = st_trace st ++ [e] -> P e ->
  st_file st' = file_after (st_file st) [e] ->
  extends P st st'.
Proof.
  intros Ht HP Hf. exists [e]. repeat split; trivial. now constructor.
Qed.

Section Rules.

Context {A B : Type}.
Variable P : Event -> Prop.

Lemma hoare_ret (Q : A -> Prop) (a : A) : Q a -> hoare P Q (ret a).
Proof.
  intros HQ st. split; [apply extends_refl |].
  simpl. intros a' [= <-]. exact HQ.
Qed.

Lemma hoare_raise (Q : A -> Prop) (e : string) : hoare P Q (raise e).
Proof. intros st. split; [apply extends_refl | discriminate]. Qed.

Lemma hoare_lift (Q : A -> Prop) (r : result A) :
  (forall a, r = Ret a -> Q a) -> hoare P Q (lift r).
Proof. intros HQ st. split; [apply extends_refl | exact HQ]. Qed.

Lemma hoare_bind (Q : A -> Prop) (R : B -> Prop) (m : M A) (k : A -> M B) :
  hoare P Q m -> (forall a, Q a -> hoare P R (k a)) -> hoare P R (bind m k).
Proof.
  intros Hm Hk st. unfold bind. destruct (Hm st) as [Hext HQ].
  destruct (m st) as [[a|e] st1]; simpl in *.
  - destruct (Hk a (HQ a eq_refl) st1) as [Hext' HR]. split.
    + eapply extends_trans; eauto.
    + exact HR.
  - split; [exact Hext | discriminate].
Qed.

Lemma hoare_weaken (Q Q' : A -> Prop) (m : M A) :
  hoare P Q m -> (forall a, Q a -> Q' a) -> hoare P Q' m.
Proof.
  intros Hm Himp st. destruct (Hm st) as [Hext HQ]. split; [exact Hext |].
  intros a Ha. apply Himp, HQ, Ha.
Qed.

Lemma hoare_try_except (Q : A -> Prop) (body : M A) (handler : string -> M A) :
  hoare P Q body -> (forall e, hoare P Q (handler e)) ->
  hoare P Q (try_except body handler).
Proof.
  intros Hb Hh st. unfold try_except. destruct (Hb st) as [Hext HQ].
  destruct (body st) as [[a|e] st1]; simpl in *.
  - split; [exact Hext | exact HQ].
  - destruct (Hh e st1) as [Hext' HQ']. split; [| exact HQ'].
    eapply extends_trans; eauto.
Qed.

Lemma hoare_try_finally (Q : A -> Prop) (body : M A) (fin : M unit) :
  hoare P Q body -> hoare P any fin -> hoare P Q (try_finally body fin).
Proof.
  intros Hb Hf st. unfold try_finally. destruct (Hb st) as [Hext HQ].
  destruct (body st) as [r st1]; simpl in *.
  destruct (Hf st1) as [Hext' _].
  destruct (fin st1) as [[[]|e] st2]; simpl in *.
  - split; [eapply extends_trans; eauto | exact HQ].
  - split; [eapply extends_trans; eauto | discriminate].
Qed.

Lemma extends_bind (m : M A) (k : A -> M B) (st : St) :
  extends P st (snd (m st)) ->
  (forall a, fst (m st) = Ret a ->
             extends P (snd (m st)) (snd (k a (snd (m st))))) ->
  extends P st (snd (bind m k st)).
Proof.
  intros Hm Hk. unfold bind. destruct (m st) as [[a|e] st1]; simpl in *.
  - eapply extends_trans; [exact Hm | now apply Hk].
  - exact Hm.
Qed.

End Rules.

Lemma hoare_impl {A} (P P' : Event -> Prop) (Q : A -> Prop) (m : M A) :
  (forall e, P e -> P' e) -> hoare P Q m -> hoare P' Q m.
Proof.
  intros Himp Hm st. destruct (Hm st) as [Hext HQ]. split; [| exact HQ].
  eapply extends_impl; eauto.
Qed.

Lemma hoare_bind_lift {A B} (P : Event -> Prop) (R : B -> Prop)
      (r : result A) (k : A -> M B) :
  (forall a, r = Ret a -> hoare P R (k a)) -> hoare P R (bind (lift r) k).
Proof.
  intros Hk. apply (hoare_bind P (fun a => r = Ret a)); [| exact Hk].
  apply hoare_lift. auto.
Qed.

Lemma hoare_emit (P : Event -> Prop) (e : Event) :
  P e -> is_save e = false -> hoare P any (emit e).
Proof.
  intros HP He st. split; [| intros; exact I].
  apply extends_one with (e := e); trivial.
  destruct e; try reflexivity; discriminate.
Qed.

Lemma hoare_log (P : Event -> Prop) (l : LogLine) :
  P (ELog l) -> hoare P any (log l).
Proof. intros HP. now apply hoare_emit. Qed.

(** A step that leaves the trace and the state file alone. *)
Lemma hoare_silent {A} (P : Event -> Prop) (m : M A) :
  (forall st, st_trace (snd (m st)) = st_trace st /\
              st_file (snd (m st)) = st_file st) ->
  hoare P any m.
Proof.
  intros Hm st. split; [| intros; exact I]. destruct (Hm st) as [Ht Hf].
  exists []. repeat split; [now rewrite app_nil_r, Ht | constructor | trivial].
Qed.

Section Primitives.

Variable E : Env.
Variable P : Event -> Prop.

Lemma hoare_now : hoare P any (now E).
Proof. apply hoare_silent. now split. Qed.

Lemma hoare_choice {A} (seq : list A) : hoare P any (choice E seq).
Proof.
  apply hoare_silent. intros st. unfold choice.
  destruct (nth_error _ _); now split.
Qed.

Lemma hoare_next_submission : hoare P any (next_submission E).
Proof. apply hoare_silent. now split. Qed.

Lemma hoare_push_error (msg : string) : hoare P any (push_error msg).
Proof. apply hoare_silent. now split. Qed.

Lemma hoare_set_driver : hoare P any set_driver.
Proof. apply hoare_silent. now split. Qed.

Lemma hoare_setup_browser :
  P (ELog LSettingUp) -> P EOpenSession -> hoare P any (setup_browser E).
Proof.
  intros H1 H2. unfold setup_browser.
  apply (hoare_bind _ any); [now apply hoare_log | intros _ _].
  destruct (env_setup_ok E); [| apply hoare_raise].
  apply (hoare_bind _ any); [now apply hoare_emit | intros _ _].
  destruct (env_cdp_ok E); [apply hoare_set_driver | apply hoare_raise].
Qed.

Lemma hoare_quit_driver : P ECloseSession -> hoare P any (quit_driver E).
Proof.
  intros HP st. unfold quit_driver. destruct (st_driver st).
  - revert st. apply (hoare_bind _ any); [now apply hoare_emit | intros _ _].
    destruct (env_quit_ok E); [now apply hoare_ret | apply hoare_raise].
  - split; [apply extends_refl | intros; exact I].
Qed.

Lemma hoare_load_state : P (ELog LCouldNotLoad) -> hoare P any load_state.
Proof.
  intros HP st. split; [| intros; exact I]. unfold load_state.
  destruct (st_file st).
  - apply extends_refl.
  - now apply extends_one with (e := ELog LCouldNotLoad).
  - apply extends_refl.
Qed.

(** [login] reports what the environment says. *)
Lemma hoare_login :
  P (ELog LLoggingIn) -> P ELogin ->
  hoare P (fun b => b = env_login_ok E) (login E).
Proof.
  intros H1 H2. unfold login.
  apply (hoare_bind _ any); [now apply hoare_log | intros _ _].
  destruct (env_login_get_ok E); [| apply hoare_raise].
  apply (hoare_bind _ any); [now apply hoare_emit | intros _ _].
  now apply hoare_ret.
Qed.

(** A write changes the file as its event says. *)
Lemma hoare_write_file (f : StateFile) (e : Event) :
  P e -> (forall f0, file_after f0 [e] = f) -> hoare P any (write_file f e).
Proof.
  intros HP Hf st. split; [| intros; exact I].
  apply extends_one with (e := e); trivial. now rewrite Hf.
Qed.

Lemma hoare_save_state (s : json) :
  (env_write E = WriteDone -> P (ESaveState s)) ->
  (forall part, env_write E = WriteBreaksOff part -> P (ESaveBroken part)) ->
  P (ELog LCouldNotSave) ->
  hoare P any (save_state E s).
Proof.
  intros Hsave Hbroken Hlog. unfold save_state.
  destruct (env_write E) as [| |part].
  - apply hoare_write_file; auto.
  - now apply hoare_log.
  - apply (hoare_bind _ any); [apply hoare_write_file; auto | intros _ _].
    now apply hoare_log.
Qed.

End Primitives.

Lemma load_state_loaded (st : St) :
  fst (load_state st) = Ret (loaded (st_file st)) /\
  st_file (snd (load_state st)) = st_file st.
Proof. unfold load_state. destruct (st_file st) eqn:Hf; simpl; now rewrite ?Hf. Qed.

(** One step of a proof that a computation only produces allowed events. *)
Ltac hoare_step :=
  lazymatch goal with
  | |- hoare _ _ (bind (lift _) _) => apply hoare_bind_lift; intros ? ?
  | |- hoare _ _ (bind _ _) => apply (hoare_bind _ any); [| intros ? _]; cbv beta
  | |- hoare _ _ (ret _) => apply hoare_ret; exact I
  | |- hoare _ _ (raise _) => apply hoare_raise
  | |- hoare _ _ (log _) => apply hoare_log; simpl; auto; try discriminate
  | |- hoare _ _ (emit _) => apply hoare_emit; [simpl; auto | reflexivity]
  | |- hoare _ _ (now _) => apply hoare_now
  | |- hoare _ _ (choice _ _) => apply hoare_choice
  | |- hoare _ _ (generate_reply _) => apply hoare_choice
  | |- hoare _ _ (next_submission _) => apply hoare_next_submission
  | |- hoare _ _ (push_error _) => apply hoare_push_error
  | |- hoare _ _ (try_except _ _) => apply hoare_try_except; [| intros ?]
  | |- hoare _ _ (if ?b then _ else _) => destruct b eqn:?
  | |- hoare _ _ (match ?x with _ => _ end) => destruct x eqn:?
  | |- hoare _ _ (let _ := _ in _) => cbv zeta
  end.

Ltac hoare_auto := repeat hoare_step.

(** ** Events of the routine's parts *)

Section SessionEvents.

Variable E : Env.
Variable state : json.

Lemma pin_post_events (dry_run : bool) :
  hoare (session_event dry_run state) any (pin_post E dry_run).
Proof. unfold pin_post. hoare_auto. Qed.

Lemma create_post_events (dry_run : bool) (post : CommunityPost) :
  hoare (session_event dry_run state) any (create_post E dry_run post).
Proof. unfold create_post. hoare_auto; apply pin_post_events. Qed.

Lemma generate_daily_post_events (P : Event -> Prop) :
  hoare P any (generate_daily_post E).
Proof. unfold generate_daily_post. hoare_auto. Qed.

Lemma post_weekly_threads_events (dry_run : bool) (today_name : string)
      (threads : list WeeklyThread) :
  forall posts_made,
    hoare (session_event dry_run state) any
          (post_weekly_threads E dry_run today_name threads posts_made).
Proof.
  induction threads as [|weekly rest IH]; intros posts_made; simpl.
  - hoare_auto.
  - hoare_auto; try apply IH. apply create_post_events.
Qed.

Lemma post_daily_content_events (dry_run : bool) (posts_made : Z) :
  hoare (session_event dry_run state) any
        (post_daily_content E dry_run posts_made).
Proof.
  unfold post_daily_content. hoare_auto;
    first [apply generate_daily_post_events | apply create_post_events].
Qed.

Lemma find_comments_events (P : Event -> Prop) (post_url : option string) :
  hoare P any (find_comments E post_url).
Proof. unfold find_comments. hoare_auto. Qed.

Lemma reply_in_comments_events (max_replies : Z) (post_url : option string)
      (comments : list Comment) :
  forall replies_made,
    hoare (session_event false state) any
          (reply_in_comments E max_replies post_url comments replies_made).
Proof.
  induction comments as [|comment rest IH]; intros replies_made; simpl.
  - hoare_auto.
  - hoare_auto; apply IH.
Qed.

Lemma reply_in_posts_events (max_replies : Z) (post_urls : list (option string)) :
  forall replies_made,
    hoare (session_event false state) any
          (reply_in_posts E max_replies post_urls replies_made).
Proof.
  induction post_urls as [|post_url rest IH]; intros replies_made; simpl.
  - hoare_auto.
  - hoare_auto; try apply IH;
      first [apply find_comments_events | apply reply_in_comments_events].
Qed.

Lemma reply_to_comments_events (dry_run : bool) (max_replies : Z) :
  hoare (session_event dry_run state) any
        (reply_to_comments E dry_run max_replies).
Proof.
  unfold reply_to_comments. hoare_auto. apply reply_in_posts_events.
Qed.

(** *** The state written at the end of a run *)

Lemma track_weekly_threads_frame (P : Event -> Prop) (today_name : string)
      (posts_made : Z) (threads : list WeeklyThread) :
  forall s,
    same_off_run_keys state s ->
    hoare P (same_off_run_keys state)
          (track_weekly_threads E today_name posts_made threads s).
Proof.
  induction threads as [|weekly rest IH]; intros s Hs; simpl.
  - now apply hoare_ret.
  - destruct (_ && _).
    + apply (hoare_bind _ any); [apply hoare_now | intros t _].
      apply hoare_bind_lift; intros log_dict _.
      apply hoare_bind_lift; intros log_dict' _.
      apply hoare_bind_lift; intros s' Hs'.
      apply IH.
      exact (same_off_run_keys_set _ _ _ _ _ Hs
               (or_intror (or_intror eq_refl)) Hs').
    + now apply IH.
Qed.

Lemma save_state_events (dry_run : bool) (s : json) :
  same_off_run_keys state s ->
  hoare (session_event dry_run state) any (save_state E s).
Proof.
  intros Hs. apply hoare_save_state; simpl; auto. discriminate.
Qed.

Lemma update_state_events (dry_run : bool) (today today_name : string)
      (posts_made : Z) :
  hoare (session_event dry_run state) any
        (update_state E today today_name posts_made state).
Proof.
  unfold update_state.
  apply hoare_bind_lift; intros s1 Hs1.
  apply hoare_bind_lift; intros s2 Hs2.
  apply hoare_bind_lift; intros previous _.
  apply hoare_bind_lift; intros s3 Hs3.
  assert (K1 : same_off_run_keys state s1)
    by exact (same_off_run_keys_first _ _ _ _ (or_introl eq_refl) Hs1).
  assert (K2 : same_off_run_keys state s2)
    by exact (same_off_run_keys_set _ _ _ _ _ K1
                (or_intror (or_introl eq_refl)) Hs2).
  assert (K3 : same_off_run_keys state s3)
    by exact (same_off_run_keys_set _ _ _ _ _ K2
                (or_intror (or_intror eq_refl)) Hs3).
  apply (hoare_bind _ (same_off_run_keys state)).
  - now apply track_weekly_threads_frame.
  - intros s Hs. now apply save_state_events.
Qed.

Lemma session_events (dry_run : bool) (today today_name : string) :
  hoare (session_event dry_run state) any
        (session E dry_run today today_name state).
Proof.
  unfold session.
  apply (hoare_bind _ any);
    [apply hoare_setup_browser; simpl; auto; discriminate | intros _ _].
  apply (hoare_bind _ any);
    [eapply hoare_weaken;
     [apply hoare_login; simpl; auto; discriminate | intros; exact I]
    | intros logged_in _].
  destruct (negb logged_in); [hoare_auto |].
  apply (hoare_bind _ any); [apply post_weekly_threads_events | intros n _].
  apply (hoare_bind _ any); [apply post_daily_content_events | intros n' _].
  apply (hoare_bind _ any); [apply reply_to_comments_events | intros _ _].
  apply (hoare_bind _ any); [apply update_state_events | intros _ _].
  hoare_auto.
Qed.

(** When the login is refused the session is quiet. *)
Lemma session_login_refused (dry_run : bool) (today today_name : string) :
  env_login_ok E = false ->
  hoare (fun e => quiet e = true) any
        (session E dry_run today today_name state).
Proof.
  intros Hlogin. unfold session.
  apply (hoare_bind _ any);
    [now apply hoare_setup_browser | intros _ _].
  apply (hoare_bind _ (fun b => b = env_login_ok E));
    [now apply hoare_login | intros logged_in ->].
  rewrite Hlogin. simpl. now apply hoare_log.
Qed.

End SessionEvents.

(** ** The events of each step *)

Section PostStep.

Variable E : Env.
Variable P : Event -> Prop.
Hypothesis Hpost : forall e, post_step_event e = true -> P e.

Lemma pin_post_step (dry_run : bool) : hoare P any (pin_post E dry_run).
Proof. unfold pin_post. hoare_auto. Qed.

Lemma create_post_step (dry_run : bool) (post : CommunityPost) :
  hoare P any (create_post E dry_run post).
Proof. unfold create_post. hoare_auto; apply pin_post_step. Qed.

Lemma post_weekly_threads_step (dry_run : bool) (today_name : string)
      (threads : list WeeklyThread) :
  forall posts_made,
    hoare P any (post_weekly_threads E dry_run today_name threads posts_made).
Proof.
  induction threads as [|weekly rest IH]; intros posts_made; simpl.
  - hoare_auto.
  - hoare_auto; try apply IH. apply create_post_step.
Qed.

Lemma post_daily_content_step (dry_run : bool) (posts_made : Z) :
  hoare P any (post_daily_content E dry_run posts_made).
Proof.
  unfold post_daily_content. hoare_auto;
    first [apply generate_daily_post_events | apply create_post_step].
Qed.

End PostStep.

Section ReplyStep.

Variable E : Env.
Variable P : Event -> Prop.
Hypothesis Hreply : forall e, reply_step_event e = true -> P e.

Lemma reply_in_comments_step (max_replies : Z) (post_url : option string)
      (comments : list Comment) :
  forall replies_made,
    hoare P any (reply_in_comments E max_replies post_url comments replies_made).
Proof.
  induction comments as [|comment rest IH]; intros replies_made; simpl.
  - hoare_auto.
  - hoare_auto; apply IH.
Qed.

Lemma reply_in_posts_step (max_replies : Z) (post_urls : list (option string)) :
  forall replies_made,
    hoare P any (reply_in_posts E max_replies post_urls replies_made).
Proof.
  induction post_urls as [|post_url rest IH]; intros replies_made; simpl.
  - hoare_auto.
  - hoare_auto; try apply IH;
      first [apply find_comments_events | apply reply_in_comments_step].
Qed.

Lemma reply_to_comments_step (dry_run : bool) (max_replies : Z) :
  hoare P any (reply_to_comments E dry_run max_replies).
Proof. unfold reply_to_comments. hoare_auto. apply reply_in_posts_step. Qed.

End ReplyStep.

(** ** Events of a whole run *)

(** What holds of the events of every session on the loaded state holds of
    the events of the run, once it also holds of the lines the routine logs
    itself. *)
Lemma run_daily_routine_lift (P : Event -> Prop) (E : Env) (dry_run : bool)
      (st : St) :
  P (ELog LStart) -> P (ELog LCouldNotLoad) -> P (ELog LAlreadyRan) ->
  P ECloseSession ->
  (forall today today_name,
      hoare P any (session E dry_run today today_name (loaded (st_file st)))) ->
  extends P st (snd (run_daily_routine E dry_run st)).
Proof.
  intros H1 H2 H3 H4 Hsession. unfold run_daily_routine.
  apply extends_bind; [now apply hoare_log | intros _ _].
  apply extends_bind; [now apply hoare_load_state | intros state Hstate].
  destruct (load_state_loaded (snd (log LStart st))) as [Hl _].
  rewrite Hl in Hstate. injection Hstate as <-.
  change (st_file (snd (log LStart st))) with (st_file st).
  match goal with
  | |- extends _ _ (snd (?m _)) => assert (H : hoare P any m)
  end.
  { hoare_auto. apply hoare_try_finally;
      [apply Hsession | now apply hoare_quit_driver]. }
  apply H.
Qed.

Lemma invoke_events (E : Env) (dry_run : bool) (f : StateFile) :
  Forall (run_event dry_run (loaded f)) (st_trace (snd (invoke E dry_run f)))
  /\ st_file (snd (invoke E dry_run f))
     = file_after f (st_trace (snd (invoke E dry_run f))).
Proof.
  destruct (run_daily_routine_lift (run_event dry_run (loaded f)) E dry_run
              (init_state f)) as (evs & Hevs & HF & Hfile).
  - left. simpl. discriminate.
  - left. simpl. discriminate.
  - now right.
  - now left.
  - intros today today_name. eapply hoare_impl; [| apply session_events].
    intros e He. now left.
  - unfold invoke. rewrite Hevs. now split.
Qed.

Local Opaque session.

(** An invocation raises on a loaded value that is no dict, stops at the
    duplicate check, or is one session under [try ... finally]. *)
Lemma invoke_cases (E : Env) (dry_run : bool) (f : StateFile) :
  ((forall kv, loaded f <> JDict kv)
   /\ invoke E dry_run f
      = (Raise "AttributeError: object has no attribute 'get'",
         mkSt 1 0 0 false [] f (load_prefix f)))
  \/ (exists kv,
         loaded f = JDict kv
         /\ PyDict.eq_str (PyDict.lookup "last_run" kv) (dt_date (env_now E 0))
            && negb dry_run = true
         /\ invoke E dry_run f
            = (Ret tt,
               mkSt 1 0 0 false [] f (load_prefix f ++ [ELog LAlreadyRan])))
  \/ (exists kv,
         loaded f = JDict kv
         /\ PyDict.eq_str (PyDict.lookup "last_run" kv) (dt_date (env_now E 0))
            && negb dry_run = false
         /\ invoke E dry_run f
            = try_finally
                (session E dry_run (dt_date (env_now E 0))
                         (PyStr.lower (strftime_A (dt_weekday (env_now E 1))))
                         (JDict kv))
                (quit_driver E)
                (mkSt 2 0 0 false [] f (load_prefix f))).
Proof.
  unfold invoke, run_daily_routine, bind.
  destruct f as [|raw|j].
  - right. right. exists []. now repeat split.
  - right. right. exists []. now repeat split.
  - destruct j as [| | | | | |kv];
      try (left; split; [intros kv; discriminate | reflexivity]).
    right. simpl.
    destruct (PyDict.eq_str _ _ && negb dry_run) eqn:Hcheck.
    + left. exists kv. now repeat split.
    + right. exists kv. now repeat split.
Qed.

Local Transparent session.

(** * The claims *)

(** ** Dry run *)

(** C1, as the code has it: with the dry-run flag set, no event of an
    invocation submits or pins a post, navigates for replies or replies, for
    every environment and state file; [create_post] only logs the post and
    reports success, and [reply_to_comments] only logs. *)
Theorem dry_run_posts_nothing (E : Env) (f : StateFile) :
  Forall (fun e => posting_action e = false)
         (st_trace (snd (invoke E true f)))
  /\ (forall post st,
         fst (create_post E true post st) = Ret (true, None) /\
         st_trace (snd (create_post E true post st))
         = st_trace st ++ [ELog (LCreating post); ELog (LDryRunPost post)])
  /\ (forall max_replies st,
         fst (reply_to_comments E true max_replies st) = Ret tt /\
         st_trace (snd (reply_to_comments E true max_replies st))
         = st_trace st ++ [ELog (LLooking max_replies); ELog LDryRunReplies]).
Proof.
  split; [| split].
  - eapply Forall_impl; [| apply (invoke_events E true f)].
    intros e [He | ->]; [| reflexivity].
    destruct e; simpl in *; trivial; discriminate.
  - intros post st. split; [reflexivity |].
    simpl. now rewrite <- app_assoc.
  - intros max_replies st. split; [reflexivity |].
    simpl. now rewrite <- app_assoc.
Qed.

(** C1, as stated, fails: on a Monday at 09:00 with no state file, a dry run
    opens a browser session, sends the login form and writes the state
    file. *)
Lemma dry_run_opens_session_and_writes_state :
  In EOpenSession (st_trace (snd (invoke Sample.calm true FileMissing)))
  /\ In ELogin (st_trace (snd (invoke Sample.calm true FileMissing)))
  /\ st_file (snd (invoke Sample.calm true FileMissing))
     = FileJson (JDict [("last_run", JStr "2024-01-01");
                        ("posts_made", JInt 1);
                        ("weekly_threads",
                         JDict [("monday", JStr "2024-01-01T09:00:00")])])
  /\ st_file (snd (invoke Sample.calm true FileMissing)) <> FileMissing.
Proof.
  vm_compute. repeat split; try discriminate; auto 10.
Qed.

(** ** Weekly timestamps *)

(** C2 at the failing inputs.  Monday 09:00: the weekly thread is submitted
    and not confirmed, the daily post succeeds, and a timestamp is written
    under ['monday'].  Monday 15:00: no weekly thread is handed to
    [create_post] at all, and the timestamp is written as well. *)
Lemma weekly_timestamp_without_weekly_post :
  (let st := snd (invoke Sample.weekly_fails false FileMissing) in
   In (ELog (LFailedWeekly
               (Some "Post may not have been created - URL check failed")))
      (st_trace st)
   /\ st_file st
      = FileJson (JDict [("last_run", JStr "2024-01-01");
                         ("posts_made", JInt 1);
                         ("weekly_threads",
                          JDict [("monday", JStr "2024-01-01T09:00:00")])]))
  /\ (let st := snd (invoke Sample.afternoon false FileMissing) in
      map post_type (created_posts (st_trace st)) = ["tip"]
      /\ st_file st
         = FileJson (JDict [("last_run", JStr "2024-01-01");
                            ("posts_made", JInt 1);
                            ("weekly_threads",
                             JDict [("monday", JStr "2024-01-01T15:00:00")])])).
Proof.
  vm_compute. repeat split; auto 20.
Qed.

(** ** Duplicate prevention *)

(** C4: when the state file holds a dict whose ['last_run'] is the date the
    clock shows, a run outside dry-run logs the start line and the
    already-ran line and does nothing else: no session, no post, no reply, and
    the state file is as it was. *)
Theorem same_day_rerun_is_skipped (E : Env) (kv : list (string * json))
        (d : string) :
  PyDict.lookup "last_run" kv = Some (JStr d) ->
  dt_date (env_now E 0) = d ->
  invoke E false (FileJson (JDict kv))
  = (Ret tt,
     mkSt 1 0 0 false [] (FileJson (JDict kv)) [ELog LStart; ELog LAlreadyRan]).
Proof.
  intros Hlast Hdate.
  unfold invoke, run_daily_routine, bind. simpl.
  rewrite Hlast, Hdate. simpl. now rewrite String.eqb_refl.
Qed.

Lemma same_day_rerun_is_skipped_witness :
  invoke Sample.calm false Sample.ran_today
  = (Ret tt,
     mkSt 1 0 0 false [] Sample.ran_today [ELog LStart; ELog LAlreadyRan]).
Proof.
  apply (same_day_rerun_is_skipped Sample.calm _ "2024-01-01"); reflexivity.
Defined.

(** ** Loading the state *)



(** ** Login failure *)

Lemma quiet_no_save (evs : list Event) :
  Forall (fun e => quiet e = true) evs -> existsb is_save evs = false.
Proof.
  induction 1 as [|e evs He _ IH]; [reflexivity |]. simpl. rewrite IH.
  unfold quiet in He. apply andb_true_iff in He as [_ He].
  now destruct (is_save e).
Qed.

(** A run outside dry-run whose trace shows a login was not stopped by the
    duplicate check: the loaded state is a dict whose ['last_run'] is not the
    date of the run. *)
Lemma reached_login_not_blocked (E : Env) (f : StateFile) :
  In ELogin (st_trace (snd (invoke E false f))) ->
  exists kv,
    loaded f = JDict kv /\
    PyDict.eq_str (PyDict.lookup "last_run" kv) (dt_date (env_now E 0)) = false.
Proof.
  destruct f as [|raw|j].
  - intros _. now exists [].
  - intros _. now exists [].
  - destruct j as [| | | | | |kv];
      try (unfold invoke, run_daily_routine, bind; simpl;
           intros [H|[]]; discriminate).
    intros Hin. exists kv. split; [reflexivity |].
    destruct (PyDict.eq_str _ _) eqn:Hcheck; [| reflexivity].
    exfalso. revert Hin.
    unfold invoke, run_daily_routine, bind. simpl. rewrite Hcheck. simpl.
    intros [H|[H|[]]]; discriminate.
Qed.

Local Opaque session.

(** A run that passes the duplicate check is one session on the loaded
    state. *)
Lemma passed_check_events (E : Env) (dry_run : bool) (f : StateFile)
      (kv : list (string * json)) :
  loaded f = JDict kv ->
  PyDict.eq_str (PyDict.lookup "last_run" kv) (dt_date (env_now E 0))
  && negb dry_run = false ->
  Forall (session_event dry_run (JDict kv))
         (st_trace (snd (invoke E dry_run f))).
Proof.
  intros Hloaded Hcheck.
  assert (Hs : forall today today_name st,
             Forall (session_event dry_run (JDict kv)) (st_trace st) ->
             Forall (session_event dry_run (JDict kv))
                    (st_trace (snd (try_finally
                                      (session E dry_run today today_name (JDict kv))
                                      (quit_driver E) st)))).
  { intros today today_name st Hst.
    destruct (hoare_try_finally (session_event dry_run (JDict kv)) any
                (session E dry_run today today_name (JDict kv)) (quit_driver E)
                (session_events E (JDict kv) dry_run today today_name)
                (hoare_quit_driver _ _ I) st) as [(evs & -> & HF & _) _].
    apply Forall_app. now split. }
  unfold invoke, run_daily_routine, bind.
  destruct f as [|raw|j]; simpl in Hloaded;
    [injection Hloaded as <- | injection Hloaded as <- | subst j];
    simpl; try rewrite Hcheck; apply Hs;
    repeat constructor; simpl; discriminate.
Qed.

Local Transparent session.

(** C5: when the login is refused, the run writes nothing to the state file
    and produces no post, pin, reply or save event, in either mode.  A run
    outside dry-run that got as far as the login therefore leaves a file on
    which the next run of the same date is not stopped by the duplicate
    check. *)
Theorem login_failure_persists_nothing (E : Env) (dry_run : bool)
        (f : StateFile) :
  env_login_ok E = false ->
  st_file (snd (invoke E dry_run f)) = f
  /\ Forall (fun e => quiet e = true) (st_trace (snd (invoke E dry_run f)))
  /\ (dry_run = false ->
      In ELogin (st_trace (snd (invoke E dry_run f))) ->
      forall E',
        dt_date (env_now E' 0) = dt_date (env_now E 0) ->
        ~ In (ELog LAlreadyRan)
             (st_trace (snd (invoke E' false
                               (st_file (snd (invoke E dry_run f))))))).
Proof.
  intros Hlogin.
  destruct (run_daily_routine_lift (fun e => quiet e = true) E dry_run
              (init_state f)) as (evs & Hevs & HF & Hfile); trivial.
  { intros today today_name. now apply session_login_refused. }
  fold (invoke E dry_run f) in *. simpl in Hevs.
  assert (Hsame : st_file (snd (invoke E dry_run f)) = f)
    by (rewrite Hfile; apply file_after_no_save, quiet_no_save, HF).
  repeat split.
  - exact Hsame.
  - now rewrite Hevs.
  - intros -> Hin E' Hdate. rewrite Hsame.
    destruct (reached_login_not_blocked E f Hin) as (kv & Hloaded & Hcheck).
    rewrite <- Hdate in Hcheck.
    assert (HF' := passed_check_events E' false f kv Hloaded).
    rewrite Hcheck in HF'. specialize (HF' eq_refl).
    intros Hbad. rewrite Forall_forall in HF'.
    now apply (HF' _ Hbad).
Qed.

Lemma login_failure_persists_nothing_witness :
  st_file (snd (invoke Sample.locked_out false Sample.yesterday))
  = Sample.yesterday
  /\ Forall (fun e => quiet e = true)
            (st_trace (snd (invoke Sample.locked_out false Sample.yesterday)))
  /\ ~ In (ELog LAlreadyRan)
          (st_trace (snd (invoke Sample.calm false
                            (st_file (snd (invoke Sample.locked_out false
                                             Sample.yesterday)))))).
Proof.
  destruct (login_failure_persists_nothing Sample.locked_out false
              Sample.yesterday eq_refl) as (H1 & H2 & H3).
  split; [exact H1 | split; [exact H2 |]].
  apply (H3 eq_refl); [| reflexivity].
  vm_compute. auto 10.
Defined.

(** ** The post generator *)

Lemma bind_eq {A B} (m : M A) (k : A -> M B) (st st' : St) (a : A) :
  m st = (Ret a, st') -> bind m k st = k a st'.
Proof. intros H. unfold bind. now rewrite H. Qed.

Lemma bind_emit {B} (e : Event) (k : unit -> M B) (st : St) :
  bind (emit e) k st
  = k tt (mkSt (st_ticks st) (st_draws st) (st_subs st) (st_driver st)
               (st_errors st) (st_file st) (st_trace st ++ [e])).
Proof. reflexivity. Qed.

(** [random.choice] on a non-empty sequence returns one of its elements. *)
Lemma choice_In (E : Env) {A} (seq : list A) (st : St) :
  seq <> [] ->
  exists x st', In x seq /\ choice E seq st = (Ret x, st').
Proof.
  intros Hne. unfold choice.
  destruct (nth_error seq _) as [x|] eqn:Hnth.
  - exists x. eexists. split; [| reflexivity]. eapply nth_error_In; eauto.
  - exfalso. apply nth_error_None in Hnth.
    assert (length seq <> 0) by (destruct seq; [contradiction | discriminate]).
    pose proof (Nat.mod_upper_bound (env_choice E (st_draws st)) (length seq)).
    lia.
Qed.

(** Whatever is drawn, [generate_daily_post] returns a post, and the post is
    unpinned, of one of the four kinds, with every placeholder filled. *)
Lemma generate_daily_post_ok (E : Env) (st : St) :
  match generate_daily_post E st with
  | (Ret p, _) => daily_ok p
  | (Raise _, _) => False
  end.
Proof.
  unfold generate_daily_post.
  destruct (choice_In E DAILY_CONTENT_TEMPLATES st) as (t & st1 & Hin & Ht);
    [discriminate |].
  rewrite (bind_eq _ _ _ _ _ Ht). cbv beta.
  simpl in Hin. destruct Hin as [<- | [<- | [<- | [<- | []]]]]; cbn [tpl_type].
  - simpl (String.eqb _ _). cbv iota.
    destruct (choice_In E TIPS st1) as (tip & st2 & Hin & Htip);
      [discriminate |].
    unfold bind at 1. rewrite (bind_eq _ _ _ _ _ Htip).
    simpl in Hin.
    destruct Hin as [<- | [<- | [<- | [<- | [<- | []]]]]];
      vm_compute; repeat split; auto 10.
  - vm_compute; repeat split; auto 10.
  - simpl (String.eqb _ _). cbv iota.
    destruct (choice_In E questions st1) as (q & st2 & Hin & Hq);
      [discriminate |].
    unfold bind at 1. rewrite (bind_eq _ _ _ _ _ Hq).
    simpl in Hin.
    repeat (destruct Hin as [<- | Hin];
            [vm_compute; repeat split; auto 10 |]).
    destruct Hin.
  - simpl (String.eqb _ _). cbv iota.
    destruct (choice_In E features st1) as (ft & st2 & Hin & Hft);
      [discriminate |].
    unfold bind at 1. rewrite (bind_eq _ _ _ _ _ Hft).
    simpl in Hin.
    repeat (destruct Hin as [<- | Hin];
            [vm_compute; repeat split; auto 10 |]).
    destruct Hin.
Qed.

(** C7: for every draw of a template and of a catalog entry,
    [generate_daily_post] returns a post whose title and content hold no
    placeholder token. *)
Theorem daily_post_has_no_placeholder (E : Env) (st : St) :
  exists p st',
    generate_daily_post E st = (Ret p, st')
    /\ PyStr.has_placeholder (title p) = false
    /\ PyStr.has_placeholder (content p) = false.
Proof.
  pose proof (generate_daily_post_ok E st) as H.
  destruct (generate_daily_post E st) as [[p|e] st']; [| contradiction].
  exists p, st'. destruct H as (_ & Ht & Hc & _). now repeat split.
Qed.

(** C9: every post [generate_daily_post] returns has [pin = False]. *)
Theorem daily_post_is_never_pinned (E : Env) (st : St) :
  exists p st',
    generate_daily_post E st = (Ret p, st') /\ pin p = false.
Proof.
  pose proof (generate_daily_post_ok E st) as H.
  destruct (generate_daily_post E st) as [[p|e] st']; [| contradiction].
  exists p, st'. destruct H as (Hp & _). now split.
Qed.

(** ** Weekly threads *)

(** [create_post] returns in every case, and logs the post it was given. *)
Lemma create_post_creates (E : Env) (dry_run : bool) (post : CommunityPost)
      (st : St) :
  exists r st',
    create_post E dry_run post st = (Ret r, st')
    /\ created_posts (st_trace st') = created_posts (st_trace st) ++ [post].
Proof.
  unfold create_post, pin_post, bind, next_submission.
  destruct dry_run; simpl.
  - eexists. eexists. split; [reflexivity |]. simpl.
    rewrite !created_posts_app. simpl. now rewrite ?app_nil_r.
  - destruct (env_submit E (st_subs st)); simpl;
      [| | destruct (pin post); simpl; [destruct (env_pin_ok E); simpl |]];
      (eexists; eexists; split; [reflexivity |]); simpl;
      rewrite !created_posts_app; simpl; now rewrite ?app_nil_r.
Qed.

(** C6: while the clock shows the hour [h], the weekly loop hands to
    [create_post] exactly the posts of the threads whose day is today's name
    and only if [h < 12], in catalog order; and it returns. *)
Theorem weekly_threads_matching (E : Env) (dry_run : bool) (today_name : string)
        (h : Z) (threads : list WeeklyThread) :
  (forall k, dt_hour (env_now E k) = h) ->
  forall posts_made st,
  exists made st',
    post_weekly_threads E dry_run today_name threads posts_made st
    = (Ret made, st')
    /\ created_posts (st_trace st')
       = created_posts (st_trace st)
         ++ map weekly_post
              (filter (fun w => (wt_day w =? today_name) && (h <? 12)%Z) threads).
Proof.
  intros Hclock.
  induction threads as [|weekly rest IH]; intros posts_made st; simpl.
  - exists posts_made, st. split; [reflexivity | now rewrite app_nil_r].
  - destruct (wt_day weekly =? today_name); [| apply IH].
    rewrite (bind_eq (now E) _ st _ _ eq_refl). cbv beta. rewrite Hclock.
    destruct (h <? 12)%Z; [| destruct (IH posts_made
      (mkSt (S (st_ticks st)) (st_draws st) (st_subs st) (st_driver st)
            (st_errors st) (st_file st) (st_trace st)))
      as (made & st' & Hrun & Hposts); exists made, st'; now split].
    destruct (create_post_creates E dry_run (weekly_post weekly)
                (mkSt (S (st_ticks st)) (st_draws st) (st_subs st) (st_driver st)
                      (st_errors st) (st_file st) (st_trace st)))
      as ([ok err] & st1 & Hcreate & Hposts1).
    rewrite (bind_eq _ _ _ _ _ Hcreate). cbv beta.
    simpl in Hposts1.
    assert (Hlog : exists made1 st2,
               (if fst (ok, err)
                then log (LPostedWeekly (wt_title weekly)) ;;; ret (posts_made + 1)%Z
                else log (LFailedWeekly (snd (ok, err))) ;;; ret posts_made) st1
               = (Ret made1, st2)
               /\ created_posts (st_trace st2) = created_posts (st_trace st1)).
    { destruct ok; simpl; eexists; eexists; (split; [reflexivity |]); simpl;
        now rewrite created_posts_app, app_nil_r. }
    destruct Hlog as (made1 & st2 & Hlog & Hposts2).
    rewrite (bind_eq _ _ _ _ _ Hlog).
    destruct (IH made1 st2) as (made & st' & Hrun & Hposts).
    exists made, st'. split; [exact Hrun |].
    rewrite Hposts, Hposts2, Hposts1. simpl. now rewrite <- app_assoc.
Qed.

Lemma weekly_threads_matching_witness :
  exists made st',
    post_weekly_threads Sample.calm false (PyStr.lower (strftime_A Monday))
                        WEEKLY_THREADS 0%Z (init_state FileMissing)
    = (Ret made, st')
    /\ map title (created_posts (st_trace st'))
       = ["Weekly Manifestation Thread - What are you working on?"].
Proof.
  destruct (weekly_threads_matching Sample.calm false
              (PyStr.lower (strftime_A Monday)) 9%Z
              WEEKLY_THREADS (fun _ => eq_refl) 0%Z (init_state FileMissing))
    as (made & st' & Hrun & Hposts).
  exists made, st'. split; [exact Hrun |]. rewrite Hposts. reflexivity.
Defined.

(** ** Replies *)



Lemma generate_reply_returns (E : Env) (st : St) :
  exists text,
    generate_reply E st
    = (Ret text,
       mkSt (st_ticks st) (S (st_draws st)) (st_subs st) (st_driver st)
            (st_errors st) (st_file st) (st_trace st)).
Proof.
  unfold generate_reply, choice.
  destruct (nth_error replies _) as [text|] eqn:Hnth; [now exists text |].
  exfalso. apply nth_error_None in Hnth.
  assert (length replies <> 0) by discriminate.
  pose proof (Nat.mod_upper_bound (env_choice E (st_draws st)) (length replies)).
  lia.
Qed.

Section RepliesPosted.

Variable E : Env.
Variable max_replies : Z.


(** The comments found behind a URL are its page comments, or the lookup
    raises and the page has none. *)
Lemma find_comments_page (post_url : option string) (st : St) :
  (exists e, find_comments E post_url st = (Raise e, st)
             /\ page_comments E post_url = [])
  \/ find_comments E post_url st = (Ret (page_comments E post_url), st).
Proof.
  unfold find_comments, page_comments. destruct post_url as [u|].
  - destruct (env_page E u); [now right |].
    left. eexists. split; reflexivity.
  - left. eexists. split; reflexivity.
Qed.


End RepliesPosted.


(** *** The bound in general *)

Section RepliesBound.

Variable E : Env.
Variable max_replies : Z.

(** The loop over the comments of one post, entered below the bound: whatever
    the reply actions do, it returns, and the replies it submits are no more
    than the bound leaves room for and no more than the eligible comments. *)
Lemma reply_in_comments_bound (post_url : option string)
      (comments : list Comment) :
  forall made st,
    (made < max_replies)%Z ->
    exists made' st' sub,
      reply_in_comments E max_replies post_url comments made st = (Ret made', st')
      /\ replies_submitted (st_trace st') = replies_submitted (st_trace st) ++ sub
      /\ made' = (made + Z.of_nat (length sub))%Z
      /\ (made' <= max_replies)%Z
      /\ length sub <= length (filter (eligible E) comments).
Proof.
  induction comments as [|c rest IH]; intros made st Hlt.
  - exists made, st, []. simpl. rewrite app_nil_r. repeat split; lia.
  - simpl.
    destruct (own_comment E c) eqn:Hown.
    { assert (Hel : eligible E c = false) by (unfold eligible; now rewrite Hown).
      rewrite Hel. now apply IH. }
    destruct (c_has_replies c) eqn:Hhas.
    { assert (Hel : eligible E c = false)
        by (unfold eligible; now rewrite Hown, Hhas).
      rewrite Hel. now apply IH. }
    assert (Hel : eligible E c = true)
      by (unfold eligible; now rewrite Hown, Hhas).
    rewrite Hel, bind_emit.
    destruct (c_reply c).
    + unfold log. rewrite bind_emit.
      eexists. eexists. exists []. split; [reflexivity |]. simpl.
      rewrite !replies_submitted_app. simpl. rewrite !app_nil_r.
      repeat split; lia.
    + match goal with
      | |- context [bind (generate_reply E) _ ?s] =>
          destruct (generate_reply_returns E s) as [text Htext]
      end.
      rewrite (bind_eq _ _ _ _ _ Htext). unfold log. rewrite bind_emit.
      eexists. eexists. exists []. split; [reflexivity |]. simpl.
      rewrite !replies_submitted_app. simpl. rewrite !app_nil_r.
      repeat split; lia.
    + match goal with
      | |- context [bind (generate_reply E) _ ?s] =>
          destruct (generate_reply_returns E s) as [text Htext]
      end.
      rewrite (bind_eq _ _ _ _ _ Htext). cbv beta.
      unfold log. rewrite !bind_emit. cbv zeta.
      destruct (made + 1 >=? max_replies)%Z eqn:Hge.
      * eexists. eexists. exists [c]. split; [reflexivity |]. simpl.
        rewrite !replies_submitted_app. simpl. rewrite !app_nil_r.
        repeat split; lia.
      * match goal with
        | |- context [reply_in_comments E max_replies post_url rest _ ?s] =>
            destruct (IH (made + 1)%Z s ltac:(lia))
              as (made' & st' & sub & Hrun & Hsub & Hmade & Hle & Hlen)
        end.
        exists made', st', (c :: sub). split; [exact Hrun |].
        rewrite Hsub. simpl.
        rewrite !replies_submitted_app. simpl.
        rewrite !app_nil_r, <- !app_assoc. simpl.
        repeat split; lia.
Qed.

Lemma reply_in_posts_bound (post_urls : list (option string)) :
  forall made st,
    exists made' st' sub,
      reply_in_posts E max_replies post_urls made st = (Ret made', st')
      /\ replies_submitted (st_trace st') = replies_submitted (st_trace st) ++ sub
      /\ made' = (made + Z.of_nat (length sub))%Z
      /\ length sub <= Z.to_nat (max_replies - made)
      /\ length sub
         <= length (filter (eligible E) (flat_map (page_comments E) post_urls)).
Proof.
  induction post_urls as [|post_url rest IH]; intros made st.
  - exists made, st, []. simpl. rewrite app_nil_r. repeat split; lia.
  - simpl. destruct (made >=? max_replies)%Z eqn:Hge.
    + exists made, st, []. simpl. rewrite app_nil_r. repeat split; lia.
    + rewrite filter_app, length_app.
      unfold bind at 1. unfold try_except. rewrite bind_emit.
      match goal with
      | |- context [bind (find_comments E post_url) _ ?s] =>
          destruct (find_comments_page E post_url s)
            as [(e & Hfind & Hnone) | Hfind]
      end.
      * unfold bind at 1. rewrite Hfind. simpl.
        match goal with
        | |- context [reply_in_posts E max_replies rest made ?s] =>
            destruct (IH made s)
              as (made' & st' & sub & Hrun & Hsub & Hmade & Hroom & Hlen)
        end.
        exists made', st', sub. split; [exact Hrun |].
        rewrite Hsub. simpl. rewrite !replies_submitted_app. simpl.
        rewrite !app_nil_r. repeat split; lia.
      * rewrite (bind_eq _ _ _ _ _ Hfind).
        match goal with
        | |- context [reply_in_comments E max_replies post_url _ made ?s] =>
            destruct (reply_in_comments_bound post_url
                        (page_comments E post_url) made s ltac:(lia))
              as (made1 & st1 & sub1 & Hrun1 & Hsub1 & Hmade1 & Hle1 & Hlen1)
        end.
        rewrite Hrun1.
        destruct (IH made1 st1)
          as (made' & st' & sub & Hrun & Hsub & Hmade & Hroom & Hlen).
        exists made', st', (sub1 ++ sub). split; [exact Hrun |].
        rewrite Hsub, Hsub1. simpl. rewrite !replies_submitted_app. simpl.
        rewrite !app_nil_r, <- !app_assoc, length_app.
        repeat split; lia.
Qed.

End RepliesBound.

Lemma reply_to_comments_bound (E : Env) (max_replies : Z) (st : St) :
  exists st' sub,
    reply_to_comments E false max_replies st = (reply_outcome E, st')
    /\ replies_submitted (st_trace st') = replies_submitted (st_trace st) ++ sub
    /\ length sub <= Nat.min (Z.to_nat max_replies) (length (candidates E)).
Proof.
  unfold candidates. unfold reply_to_comments, reply_outcome, log.
  rewrite bind_emit. cbv iota. rewrite bind_emit. unfold try_except.
  unfold window_urls.
  destruct (env_listing_get_ok E).
  2: { simpl. eexists. exists []. split; [reflexivity |]. simpl.
       rewrite !replies_submitted_app. simpl.
       rewrite !app_nil_r. split; [reflexivity | lia]. }
  destruct (env_listing E) as [containers|].
  - cbv zeta. set (urls := collect_urls (firstn 10 containers)) in *.
    clearbody urls. rewrite bind_emit. simpl.
    match goal with
    | |- context [bind (reply_in_posts E max_replies urls 0%Z) _ ?s] =>
        destruct (reply_in_posts_bound E max_replies urls 0%Z s)
          as (made' & st' & sub & Hrun & Hsub & Hmade & Hroom & Hlen)
    end.
    rewrite (bind_eq _ _ _ _ _ Hrun). simpl.
    eexists. exists sub. split; [reflexivity |]. simpl.
    rewrite !replies_submitted_app, Hsub. simpl.
    rewrite !replies_submitted_app. simpl.
    rewrite !app_nil_r. split; [reflexivity |].
    rewrite Z.sub_0_r in Hroom. lia.
  - simpl. eexists. exists []. split; [reflexivity |]. simpl.
    rewrite !replies_submitted_app. simpl.
    rewrite !app_nil_r. split; [reflexivity | lia].
Qed.




(** ** Keys of the persisted state *)

Lemma bind_raise {A B} (m : M A) (k : A -> M B) (st st' : St) (e : string) :
  m st = (Raise e, st') -> bind m k st = (Raise e, st').
Proof. intros H. unfold bind. now rewrite H. Qed.

Lemma bind_lift_ret {A B} (a : A) (k : A -> M B) (st : St) :
  bind (lift (Ret a)) k st = k a st.
Proof. reflexivity. Qed.

Lemma bind_lift_raise {A B} (e : string) (k : A -> M B) (st : St) :
  bind (lift (Raise e)) k st = (Raise e, st).
Proof. reflexivity. Qed.

Lemma file_after_quiet (f : StateFile) (evs : list Event) :
  Forall (fun e => before_update e = true) evs -> file_after f evs = f.
Proof.
  intros HF. apply file_after_no_save.
  induction HF as [|e evs He _ IH]; [reflexivity |]. simpl. rewrite IH.
  destruct e; trivial; discriminate.
Qed.

(** A computation without events leaves trace and file alone. *)
Lemma hoare_silent_run {A} (Q : A -> Prop) (m : M A) (st : St) :
  hoare (fun _ => False) Q m ->
  st_trace (snd (m st)) = st_trace st
  /\ st_file (snd (m st)) = st_file st
  /\ forall a, fst (m st) = Ret a -> Q a.
Proof.
  intros Hm. destruct (Hm st) as [(evs & Ht & HF & Hf) HQ].
  destruct HF as [|e evs []]. rewrite app_nil_r in Ht. now repeat split.
Qed.

(** The finally clause adds at most the closing of the session and leaves
    the file alone. *)
Lemma try_finally_quit {A} (E : Env) (body : M A) (st : St) :
  exists qevs,
    st_trace (snd (try_finally body (quit_driver E) st))
    = st_trace (snd (body st)) ++ qevs
    /\ Forall (fun e => e = ECloseSession) qevs
    /\ st_file (snd (try_finally body (quit_driver E) st))
       = st_file (snd (body st)).
Proof.
  unfold try_finally, quit_driver. destruct (body st) as [r st1]. simpl.
  destruct (st_driver st1).
  - exists [ECloseSession]. unfold bind, emit.
    destruct (env_quit_ok E); simpl; now repeat constructor.
  - exists []. simpl. rewrite app_nil_r. now repeat constructor.
Qed.

Section WritesBack.

Variable E : Env.
Variable state : json.

(** The update block writes a dict that agrees with the loaded state off the
    run keys, or raises before it writes. *)
Lemma update_state_written (today today_name : string) (posts_made : Z)
      (st : St) :
  match update_state E today today_name posts_made state st with
  | (Ret _, st') =>
      exists s,
        same_off_run_keys state s
        /\ st_file st' = written E s (st_file st)
        /\ st_trace st' = st_trace st ++ save_events E s
  | (Raise _, st') => st_trace st' = st_trace st /\ st_file st' = st_file st
  end.
Proof.
  unfold update_state.
  destruct (PyDict.setitem state "last_run" (JStr today)) as [s1|e1] eqn:Hs1;
    [rewrite bind_lift_ret | now rewrite bind_lift_raise].
  destruct (PyDict.setitem s1 "posts_made" (JInt posts_made)) as [s2|e2] eqn:Hs2;
    [rewrite bind_lift_ret | now rewrite bind_lift_raise].
  destruct (PyDict.get s2 "weekly_threads") as [previous|e3] eqn:Hprev;
    [rewrite bind_lift_ret | now rewrite bind_lift_raise].
  destruct (PyDict.setitem s2 "weekly_threads" _) as [s3|e4] eqn:Hs3;
    [rewrite bind_lift_ret | now rewrite bind_lift_raise].
  assert (K1 : same_off_run_keys state s1)
    by exact (same_off_run_keys_first _ _ _ _ (or_introl eq_refl) Hs1).
  assert (K2 : same_off_run_keys state s2)
    by exact (same_off_run_keys_set _ _ _ _ _ K1
                (or_intror (or_introl eq_refl)) Hs2).
  assert (K3 : same_off_run_keys state s3)
    by exact (same_off_run_keys_set _ _ _ _ _ K2
                (or_intror (or_intror eq_refl)) Hs3).
  destruct (hoare_silent_run _ _ st
              (track_weekly_threads_frame E state (fun _ => False) today_name
                 posts_made WEEKLY_THREADS s3 K3)) as (Ht & Hf & HQ).
  destruct (track_weekly_threads E today_name posts_made WEEKLY_THREADS s3 st)
    as [[s|e] st1] eqn:Htrack; simpl in Ht, Hf, HQ.
  - rewrite (bind_eq _ _ _ _ _ Htrack).
    unfold save_state, written, save_events, write_file, log, emit, bind.
    destruct (env_write E); cbn; exists s; (split; [now apply HQ |]);
      rewrite ?Ht, ?Hf, <- ?app_assoc; now split.
  - rewrite (bind_raise _ _ _ _ _ Htrack). now split.
Qed.

Lemma writes_back_hoare {A} (Q : A -> Prop) (m : M A) :
  hoare (fun e => before_update e = true) Q m -> writes_back E state m.
Proof.
  intros Hm st. destruct (Hm st) as [(evs & Ht & HF & Hf) _].
  exists evs. split; [exact Ht |]. left. split; [exact HF |].
  now rewrite Hf, file_after_quiet.
Qed.

Lemma writes_back_bind {A B} (m : M A) (k : A -> M B) :
  hoare (fun e => before_update e = true) any m ->
  (forall a, writes_back E state (k a)) ->
  writes_back E state (bind m k).
Proof.
  intros Hm Hk st. destruct (Hm st) as [(evs1 & T1 & F1 & K1) _].
  rewrite (file_after_quiet _ _ F1) in K1.
  unfold bind. destruct (m st) as [[a|e] st1]; simpl in *.
  - destruct (Hk a st1) as (evs2 & T2 & [[F2 K2] | (s & Hs & K2)]);
      exists (evs1 ++ evs2); (split; [now rewrite T2, T1, app_assoc |]).
    + left. split; [now apply Forall_app | now rewrite K2].
    + right. exists s. split; [exact Hs | now rewrite K2, K1].
  - exists evs1. split; [exact T1 |]. left. now split.
Qed.

Lemma writes_back_session (dry_run : bool) (today today_name : string) :
  writes_back E state (session E dry_run today today_name state).
Proof.
  assert (Hpost : forall e, post_step_event e = true -> before_update e = true).
  { intros e He. destruct e as [| | | | | | | | | |l]; trivial; try discriminate.
    destruct l; trivial; discriminate. }
  assert (Hreply : forall e, reply_step_event e = true -> before_update e = true).
  { intros e He. destruct e as [| | | | | | | | | |l]; trivial; try discriminate.
    destruct l; trivial; discriminate. }
  unfold session.
  apply writes_back_bind; [now apply hoare_setup_browser | intros _].
  apply writes_back_bind;
    [eapply hoare_weaken; [now apply hoare_login | intros; exact I]
    | intros logged_in].
  destruct (negb logged_in);
    [apply (writes_back_hoare any); now apply hoare_log |].
  apply writes_back_bind; [now apply post_weekly_threads_step | intros n].
  apply writes_back_bind; [now apply post_daily_content_step | intros n'].
  apply writes_back_bind; [now apply reply_to_comments_step | intros _].
  intros st. pose proof (update_state_written today today_name n' st) as H.
  unfold bind.
  destruct (update_state E today today_name n' state st) as [[[]|e] st1].
  - destruct H as (s & Hs & Hf & Ht).
    exists (save_events E s ++ [ELog (LComplete n')]). simpl.
    split; [now rewrite Ht, app_assoc |]. right. now exists s.
  - destruct H as [Ht Hf]. exists []. simpl. rewrite app_nil_r.
    split; [exact Ht |]. left. split; [constructor | exact Hf].
Qed.

End WritesBack.

(** The file an invocation leaves is the original one or what the one call
    of [save_state] left, and the latter once the run is reported
    complete. *)
Lemma invoke_written (E : Env) (dry_run : bool) (f : StateFile) :
  (st_file (snd (invoke E dry_run f)) = f
   \/ exists s,
       same_off_run_keys (loaded f) s
       /\ st_file (snd (invoke E dry_run f)) = written E s f)
  /\ (forall n,
         In (ELog (LComplete n)) (st_trace (snd (invoke E dry_run f))) ->
         exists s,
           same_off_run_keys (loaded f) s
           /\ st_file (snd (invoke E dry_run f)) = written E s f).
Proof.
  assert (Hprefix : forall n, ~ In (ELog (LComplete n)) (load_prefix f)).
  { intros n Hin. destruct f; simpl in Hin; intuition discriminate. }
  destruct (invoke_cases E dry_run f)
    as [[_ ->] | [(kv & _ & _ & ->) | (kv & Hkv & _ & ->)]].
  - split; [now left |]. intros n Hin. now apply Hprefix in Hin.
  - split; [now left |]. intros n Hin. cbn [snd st_trace] in Hin.
    apply in_app_or in Hin as [Hin | [Hin | []]];
      [now apply Hprefix in Hin | discriminate].
  - rewrite Hkv.
    match goal with
    | |- context [try_finally (session E dry_run ?today ?name (JDict kv))
                              (quit_driver E) ?st0] =>
        destruct (try_finally_quit E (session E dry_run today name (JDict kv))
                    st0) as (qevs & -> & Hq & ->);
        destruct (writes_back_session E (JDict kv) dry_run today name st0)
          as (evs & -> & Hcases)
    end.
    cbn [st_trace st_file] in *.
    split.
    + destruct Hcases as [[_ Hsame] | Hwritten]; [now left | now right].
    + intros n Hin.
      destruct Hcases as [[Hquiet _] | Hwritten]; [exfalso | exact Hwritten].
      rewrite Forall_forall in Hquiet, Hq.
      apply in_app_or in Hin as [Hin | Hin];
        [apply in_app_or in Hin as [Hin | Hin] |].
      * now apply Hprefix in Hin.
      * now apply Hquiet in Hin.
      * now apply Hq in Hin.
Qed.

(** C10, as the code has it: every state a run hands to a successful write
    agrees with the loaded state on every key other than ['last_run'],
    ['posts_made'] and ['weekly_threads'] (same keys, same values); the state
    file changes only through the writes of the run; at the end it is the
    original file or what the one call of [save_state] left; and after a
    completed run it is what that call left: the written dict when the write
    succeeds, the original file when the open fails, and the partial text,
    with every key lost, when the write breaks off after the open. *)
Theorem other_keys_are_written_back (E : Env) (dry_run : bool) (f : StateFile) :
  (forall j,
      In (ESaveState j) (st_trace (snd (invoke E dry_run f))) ->
      same_off_run_keys (loaded f) j)
  /\ st_file (snd (invoke E dry_run f))
     = file_after f (st_trace (snd (invoke E dry_run f)))
  /\ (st_file (snd (invoke E dry_run f)) = f
      \/ exists s,
          same_off_run_keys (loaded f) s
          /\ st_file (snd (invoke E dry_run f)) = written E s f)
  /\ (forall n,
         In (ELog (LComplete n)) (st_trace (snd (invoke E dry_run f))) ->
         exists s,
           same_off_run_keys (loaded f) s
           /\ st_file (snd (invoke E dry_run f))
              = match env_write E with
                | WriteDone => FileJson s
                | WriteOpenFails => f
                | WriteBreaksOff part => FileGarbage part
                end).
Proof.
  destruct (invoke_events E dry_run f) as [HF Hfile].
  destruct (invoke_written E dry_run f) as [Hcases Hcomplete].
  split; [| split; [exact Hfile | split; [exact Hcases | exact Hcomplete]]].
  intros j Hin. rewrite Forall_forall in HF.
  destruct (HF _ Hin) as [H | H]; [exact H | discriminate].
Qed.

Lemma other_keys_are_written_back_witness :
  exists s,
    same_off_run_keys (loaded Sample.yesterday) s
    /\ st_file (snd (invoke Sample.calm false Sample.yesterday)) = FileJson s.
Proof.
  destruct (other_keys_are_written_back Sample.calm false Sample.yesterday)
    as (_ & _ & _ & H).
  apply (H 1%Z). vm_compute. auto 40.
Defined.

(** C10, as stated, fails: a run whose write of the state file breaks off
    after the open completes all the same, and the file it leaves holds none
    of the keys of the loaded state; the next run loads the empty state. *)
Lemma completed_run_can_lose_every_key :
  let st := snd (invoke Sample.disk_full false Sample.yesterday) in
  fst (invoke Sample.disk_full false Sample.yesterday) = Ret tt
  /\ In (ELog (LComplete 1)) (st_trace st)
  /\ loaded Sample.yesterday
     = JDict [("note", JStr "keep me"); ("last_run", JStr "2023-12-31")]
  /\ st_file st = FileGarbage ""
  /\ loaded (st_file st) = JDict [].
Proof. vm_compute. repeat split. auto 40. Qed.

(** * Further properties *)

(** ** The shape of an invocation *)

Lemma setup_browser_ok (E : Env) (st : St) :
  env_setup_ok E = true -> env_cdp_ok E = true ->
  setup_browser E st
  = (Ret tt,
     mkSt (st_ticks st) (st_draws st) (st_subs st) true (st_errors st)
          (st_file st) (st_trace st ++ [ELog LSettingUp; EOpenSession])).
Proof.
  intros H1 H2. unfold setup_browser, bind, log, emit, set_driver.
  rewrite H1, H2. simpl. now rewrite <- app_assoc.
Qed.

Lemma setup_browser_fails (E : Env) (st : St) :
  env_setup_ok E = false ->
  setup_browser E st
  = (Raise "WebDriverException",
     mkSt (st_ticks st) (st_draws st) (st_subs st) (st_driver st) (st_errors st)
          (st_file st) (st_trace st ++ [ELog LSettingUp])).
Proof. intros H. unfold setup_browser, bind, log, emit. now rewrite H. Qed.

(** The browser started and the CDP command raised: the session is open and
    [self.driver] is as it was. *)
Lemma setup_browser_leaks (E : Env) (st : St) :
  env_setup_ok E = true -> env_cdp_ok E = false ->
  setup_browser E st
  = (Raise "WebDriverException",
     mkSt (st_ticks st) (st_draws st) (st_subs st) (st_driver st) (st_errors st)
          (st_file st) (st_trace st ++ [ELog LSettingUp; EOpenSession])).
Proof.
  intros H1 H2. unfold setup_browser, bind, log, emit.
  rewrite H1, H2. simpl. now rewrite <- app_assoc.
Qed.

Lemma login_run (E : Env) (st : St) :
  env_login_get_ok E = true ->
  login E st
  = (Ret (env_login_ok E),
     mkSt (st_ticks st) (st_draws st) (st_subs st) (st_driver st) (st_errors st)
          (st_file st) (st_trace st ++ [ELog LLoggingIn; ELogin])).
Proof.
  intros H. unfold login, bind, log, emit, ret. rewrite H. simpl.
  now rewrite <- app_assoc.
Qed.

Lemma login_raises (E : Env) (st : St) :
  env_login_get_ok E = false ->
  login E st
  = (Raise "WebDriverException",
     mkSt (st_ticks st) (st_draws st) (st_subs st) (st_driver st) (st_errors st)
          (st_file st) (st_trace st ++ [ELog LLoggingIn])).
Proof. intros H. unfold login, bind, log, emit. now rewrite H. Qed.

(** X1: a state file that holds valid JSON other than an object makes the
    routine raise at the duplicate check, in either mode: nothing but the
    start line is logged, no session is opened and the file is untouched. *)
Theorem non_object_state_raises (E : Env) (dry_run : bool) (j : json) :
  (forall kv, j <> JDict kv) ->
  invoke E dry_run (FileJson j)
  = (Raise "AttributeError: object has no attribute 'get'",
     mkSt 1 0 0 false [] (FileJson j) [ELog LStart]).
Proof.
  intros Hj.
  destruct (invoke_cases E dry_run (FileJson j))
    as [[_ H] | [(kv & Hkv & _) | (kv & Hkv & _)]];
    [exact H | |]; simpl in Hkv; now apply Hj in Hkv.
Qed.

Lemma non_object_state_raises_witness :
  invoke Sample.calm true (FileJson (JList []))
  = (Raise "AttributeError: object has no attribute 'get'",
     mkSt 1 0 0 false [] (FileJson (JList [])) [ELog LStart]).
Proof.
  apply (non_object_state_raises Sample.calm true (JList [])).
  intros kv. discriminate.
Defined.

(** A session is its frame and its four steps. *)
Lemma session_lift (P : Event -> Prop) (E : Env) (dry_run : bool)
      (today today_name : string) (state : json) :
  (forall e, session_frame_event e = true -> P e) ->
  (forall n, hoare P any
                   (post_weekly_threads E dry_run today_name WEEKLY_THREADS n)) ->
  (forall n, hoare P any (post_daily_content E dry_run n)) ->
  hoare P any (reply_to_comments E dry_run 3) ->
  (forall n, hoare P any (update_state E today today_name n state)) ->
  hoare P any (session E dry_run today today_name state).
Proof.
  intros Hframe Hweekly Hdaily Hreply Hupdate. unfold session.
  apply (hoare_bind _ any); [apply hoare_setup_browser; auto | intros _ _].
  apply (hoare_bind _ any);
    [eapply hoare_weaken; [apply hoare_login; auto | intros; exact I]
    | intros logged_in _].
  destruct (negb logged_in); [hoare_auto |].
  apply (hoare_bind _ any); [apply Hweekly | intros n _].
  apply (hoare_bind _ any); [apply Hdaily | intros n' _].
  apply (hoare_bind _ any); [apply Hreply | intros _ _].
  apply (hoare_bind _ any); [apply Hupdate | intros _ _].
  hoare_auto.
Qed.

(** The same with the posting and reply steps given by their events. *)
Lemma session_lift_steps (P : Event -> Prop) (E : Env) (dry_run : bool)
      (today today_name : string) (state : json) :
  (forall e, session_frame_event e = true -> P e) ->
  (forall e, post_step_event e = true -> P e) ->
  (forall e, reply_step_event e = true -> P e) ->
  (forall n, hoare P any (update_state E today today_name n state)) ->
  hoare P any (session E dry_run today today_name state).
Proof.
  intros Hframe Hpost Hreply Hupdate. apply session_lift; trivial.
  - intros n. now apply post_weekly_threads_step.
  - intros n. now apply post_daily_content_step.
  - now apply reply_to_comments_step.
Qed.


(** The same through the case analysis of the invocation, which keeps the
    date and the day name the session is run with. *)
Lemma invoke_session_lift (P : Event -> Prop) (E : Env) (dry_run : bool)
      (f : StateFile) :
  P (ELog LStart) -> P (ELog LCouldNotLoad) -> P (ELog LAlreadyRan) ->
  P ECloseSession ->
  (forall kv,
      loaded f = JDict kv ->
      hoare P any
            (session E dry_run (dt_date (env_now E 0))
                     (PyStr.lower (strftime_A (dt_weekday (env_now E 1))))
                     (JDict kv))) ->
  Forall P (st_trace (snd (invoke E dry_run f))).
Proof.
  intros H1 H2 H3 H4 Hs.
  assert (Hprefix : Forall P (load_prefix f))
    by (destruct f; repeat constructor; trivial).
  destruct (invoke_cases E dry_run f)
    as [[_ ->] | [(kv & _ & _ & ->) | (kv & Hkv & _ & ->)]];
    cbn [snd st_trace].
  - exact Hprefix.
  - apply Forall_app. split; [exact Hprefix | now repeat constructor].
  - destruct (hoare_try_finally P any _ (quit_driver E) (Hs kv Hkv)
                (hoare_quit_driver E P H4)
                (mkSt 2 0 0 false [] f (load_prefix f)))
      as [(evs & -> & HF & _) _].
    apply Forall_app. now split.
Qed.

(** ** Updating the state *)

Lemma lookup_store_same (k : string) (v : json) (kv : list (string * json)) :
  PyDict.lookup k (PyDict.store k v kv) = Some v.
Proof.
  induction kv as [|[k0 v0] kv IH]; simpl.
  - now rewrite String.eqb_refl.
  - destruct (String.eqb_spec k k0) as [->|Hk0]; simpl.
    + now rewrite String.eqb_refl.
    + destruct (String.eqb_spec k k0); [contradiction | exact IH].
Qed.

Section UpdateStep.

Variable E : Env.
Variable P : Event -> Prop.

(** The tracking loop produces no event and keeps what every assignment to
    ['weekly_threads'] keeps. *)
Lemma track_weekly_threads_inv (Q : json -> Prop) (today_name : string)
      (posts_made : Z) (threads : list WeeklyThread) :
  (forall s v s', Q s -> PyDict.setitem s "weekly_threads" v = Ret s' -> Q s') ->
  forall s, Q s ->
            hoare P Q (track_weekly_threads E today_name posts_made threads s).
Proof.
  intros Hset.
  induction threads as [|weekly rest IH]; intros s Hs; simpl.
  - now apply hoare_ret.
  - destruct (_ && _); [| now apply IH].
    apply (hoare_bind _ any); [apply hoare_now | intros t _].
    apply hoare_bind_lift; intros log_dict _.
    apply hoare_bind_lift; intros log_dict' _.
    apply hoare_bind_lift; intros s' Hs'.
    apply IH. eapply Hset; eauto.
Qed.

(** The update block saves a state that satisfies whatever the three
    assignments establish and the tracking loop keeps. *)
Lemma update_state_saves (Q : json -> Prop) (today today_name : string)
      (posts_made : Z) (state : json) :
  (forall s1 s2 previous s3,
      PyDict.setitem state "last_run" (JStr today) = Ret s1 ->
      PyDict.setitem s1 "posts_made" (JInt posts_made) = Ret s2 ->
      PyDict.get s2 "weekly_threads" = Ret previous ->
      PyDict.setitem s2 "weekly_threads"
                     (match previous with Some v => v | None => JDict [] end)
      = Ret s3 ->
      Q s3) ->
  (forall s v s', Q s -> PyDict.setitem s "weekly_threads" v = Ret s' -> Q s') ->
  (forall s, Q s -> env_write E = WriteDone -> P (ESaveState s)) ->
  (forall part, env_write E = WriteBreaksOff part -> P (ESaveBroken part)) ->
  P (ELog LCouldNotSave) ->
  hoare P any (update_state E today today_name posts_made state).
Proof.
  intros Hinit Hset Hsave Hbroken Hlog. unfold update_state.
  apply hoare_bind_lift; intros s1 Hs1.
  apply hoare_bind_lift; intros s2 Hs2.
  apply hoare_bind_lift; intros previous Hprev.
  apply hoare_bind_lift; intros s3 Hs3.
  apply (hoare_bind _ Q).
  - apply track_weekly_threads_inv; eauto.
  - intros s Hs. apply hoare_save_state; auto.
Qed.

Lemma update_state_step (today today_name : string) (posts_made : Z)
      (state : json) :
  (forall e, update_step_event e = true -> P e) ->
  hoare P any (update_state E today today_name posts_made state).
Proof.
  intros H. apply (update_state_saves any); auto; intros; exact I.
Qed.

End UpdateStep.

(** ** A failed write *)

(** Every write event of a run is the one the environment's way of ending a
    write gives. *)
Lemma invoke_write_events (E : Env) (dry_run : bool) (f : StateFile) :
  Forall (write_event E) (st_trace (snd (invoke E dry_run f))).
Proof.
  apply invoke_session_lift; try exact I.
  intros kv _. apply session_lift_steps;
    try (intros e He; destruct e; try discriminate He; exact I).
  intros n. apply (update_state_saves E _ any); auto; intros; exact I.
Qed.

(** X2: a write of the state file that fails is logged and not raised, and
    it is no save.  The run hands no state to the file; the file it leaves
    is the original one or, when the write broke off after the open, the
    partial text; and a run outside dry-run that got as far as the login
    leaves a file on which the next run of the same date is not stopped by
    the duplicate check. *)
Theorem failed_write_is_no_save (E : Env) (dry_run : bool) (f : StateFile) :
  env_write E <> WriteDone ->
  (forall s st, fst (save_state E s st) = Ret tt)
  /\ (forall j, ~ In (ESaveState j) (st_trace (snd (invoke E dry_run f))))
  /\ (st_file (snd (invoke E dry_run f)) = f
      \/ exists part,
          env_write E = WriteBreaksOff part
          /\ st_file (snd (invoke E dry_run f)) = FileGarbage part)
  /\ (dry_run = false ->
      In ELogin (st_trace (snd (invoke E dry_run f))) ->
      forall E',
        dt_date (env_now E' 0) = dt_date (env_now E 0) ->
        ~ In (ELog LAlreadyRan)
             (st_trace (snd (invoke E' false
                               (st_file (snd (invoke E dry_run f))))))).
Proof.
  intros Hw.
  assert (Hfile : st_file (snd (invoke E dry_run f)) = f
                  \/ exists part,
                      env_write E = WriteBreaksOff part
                      /\ st_file (snd (invoke E dry_run f)) = FileGarbage part).
  { destruct (invoke_written E dry_run f) as [[H | (s & _ & H)] _];
      [now left |].
    unfold written in H.
    destruct (env_write E) as [| |part];
      [contradiction | now left | right; now exists part]. }
  split; [| split; [| split; [exact Hfile |]]].
  - intros s st. unfold save_state.
    destruct (env_write E); [contradiction | reflexivity | reflexivity].
  - intros j Hin. pose proof (invoke_write_events E dry_run f) as HF.
    rewrite Forall_forall in HF. apply HF in Hin. contradiction.
  - intros -> Hin E' Hdate Hbad.
    destruct Hfile as [Hsame | (part & _ & Hpart)].
    + rewrite Hsame in Hbad.
      destruct (reached_login_not_blocked E f Hin) as (kv & Hloaded & Hcheck).
      rewrite <- Hdate in Hcheck.
      assert (HF' := passed_check_events E' false f kv Hloaded).
      rewrite Hcheck in HF'. specialize (HF' eq_refl).
      rewrite Forall_forall in HF'. now apply (HF' _ Hbad).
    + rewrite Hpart in Hbad.
      assert (HF' := passed_check_events E' false (FileGarbage part) []
                       eq_refl eq_refl).
      rewrite Forall_forall in HF'. now apply (HF' _ Hbad).
Qed.

Lemma failed_write_is_no_save_witness :
  st_file (snd (invoke Sample.disk_full false Sample.yesterday))
  = FileGarbage ""
  /\ ~ In (ELog LAlreadyRan)
          (st_trace (snd (invoke Sample.calm false
                            (st_file (snd (invoke Sample.disk_full false
                                             Sample.yesterday)))))).
Proof.
  destruct (failed_write_is_no_save Sample.disk_full false Sample.yesterday)
    as (_ & _ & _ & H).
  - discriminate.
  - split; [reflexivity |].
    apply (H eq_refl); [| reflexivity]. vm_compute. auto 10.
Defined.

(** ** After a run that saved its state *)

(** The file after a trace with a save and no broken write is what the last
    save wrote. *)
Lemma file_after_saved (Q : json -> Prop) (f : StateFile) (tr : list Event) :
  (forall j, In (ESaveState j) tr -> Q j) ->
  (forall part, ~ In (ESaveBroken part) tr) ->
  (exists j, In (ESaveState j) tr) ->
  exists j', file_after f tr = FileJson j' /\ Q j'.
Proof.
  induction tr as [|e tr IH] using rev_ind; intros HQ Hno [j Hin];
    [destruct Hin |].
  unfold file_after in *. rewrite fold_left_app. simpl.
  destruct e;
    try (apply in_app_or in Hin as [Hin | [Hin | []]];
         [| discriminate];
         apply IH;
         [ intros j1 Hj1; apply HQ; apply in_or_app; now left
         | intros part Hp; apply (Hno part); apply in_or_app; now left
         | now exists j ]).
  - eexists. split; [reflexivity |]. apply HQ. apply in_or_app. right. now left.
  - exfalso. apply (Hno part). apply in_or_app. right. now left.
Qed.

(** Every state a run saves carries the date of the run under
    ['last_run']. *)
Lemma invoke_saves_last_run (E : Env) (dry_run : bool) (f : StateFile) :
  Forall (saves_last_run (dt_date (env_now E 0)))
         (st_trace (snd (invoke E dry_run f))).
Proof.
  apply invoke_session_lift; try (intros j Hj; discriminate).
  intros kv _. apply session_lift_steps;
    try (intros e He j ->; discriminate He).
  intros n.
  apply (update_state_saves E _
           (fun s => exists kv', s = JDict kv'
                                 /\ PyDict.lookup "last_run" kv'
                                    = Some (JStr (dt_date (env_now E 0))))).
  - intros s1 s2 previous s3 [= <-] [= <-] _ [= <-].
    eexists. split; [reflexivity |].
    rewrite !lookup_store_other by discriminate. apply lookup_store_same.
  - intros s v s' (kv' & -> & Hkv') [= <-].
    eexists. split; [reflexivity |].
    now rewrite lookup_store_other by discriminate.
  - intros s Hs _ j [= <-]. exact Hs.
  - intros part _ j Hj. discriminate.
  - intros j Hj. discriminate.
Qed.

(** X3: once a run has saved its state, in either mode, a run outside
    dry-run on the same date over the file it left is skipped: it logs the
    start and already-ran lines, opens no session and leaves the file alone.
    In particular a dry run that saves blocks the real run of that day. *)
Theorem saved_run_blocks_same_day_rerun (E E' : Env) (dry_run : bool)
        (f : StateFile) (j : json) :
  In (ESaveState j) (st_trace (snd (invoke E dry_run f))) ->
  dt_date (env_now E' 0) = dt_date (env_now E 0) ->
  invoke E' false (st_file (snd (invoke E dry_run f)))
  = (Ret tt,
     mkSt 1 0 0 false [] (st_file (snd (invoke E dry_run f)))
          [ELog LStart; ELog LAlreadyRan]).
Proof.
  intros Hin Hdate.
  destruct (invoke_events E dry_run f) as [_ ->].
  pose proof (invoke_saves_last_run E dry_run f) as HF.
  pose proof (invoke_write_events E dry_run f) as HW.
  rewrite Forall_forall in HF, HW.
  assert (Hdone : env_write E = WriteDone) by exact (HW _ Hin).
  destruct (file_after_saved
              (fun j' => exists kv', j' = JDict kv'
                                     /\ PyDict.lookup "last_run" kv'
                                        = Some (JStr (dt_date (env_now E 0))))
              f (st_trace (snd (invoke E dry_run f))))
    as (j' & -> & kv' & -> & Hlast).
  { intros j0 Hj0. now apply (HF _ Hj0). }
  { intros part Hp. apply HW in Hp. simpl in Hp. congruence. }
  { now exists j. }
  destruct (invoke_cases E' false (FileJson (JDict kv')))
    as [[Hno _] | [(kv & _ & _ & ->) | (kv & [= <-] & Hcheck & _)]].
  - now destruct (Hno kv').
  - reflexivity.
  - rewrite Hlast, Hdate in Hcheck. simpl in Hcheck.
    now rewrite String.eqb_refl in Hcheck.
Qed.

Lemma saved_run_blocks_same_day_rerun_witness :
  invoke Sample.calm false
         (st_file (snd (invoke Sample.calm true FileMissing)))
  = (Ret tt,
     mkSt 1 0 0 false [] (st_file (snd (invoke Sample.calm true FileMissing)))
          [ELog LStart; ELog LAlreadyRan]).
Proof.
  apply (saved_run_blocks_same_day_rerun Sample.calm Sample.calm true FileMissing
           (JDict [("last_run", JStr "2024-01-01"); ("posts_made", JInt 1);
                   ("weekly_threads",
                    JDict [("monday", JStr "2024-01-01T09:00:00")])]));
    [| reflexivity].
  vm_compute. auto 40.
Defined.

(** ** The browser session *)

Section KeepsDriver.

Context {A B : Type}.

Lemma keeps_ret (a : A) : keeps_driver (ret a).
Proof. intros st. reflexivity. Qed.

Lemma keeps_raise (e : string) : keeps_driver (@raise A e).
Proof. intros st. reflexivity. Qed.

Lemma keeps_lift (r : result A) : keeps_driver (lift r).
Proof. intros st. reflexivity. Qed.

Lemma keeps_bind (m : M A) (k : A -> M B) :
  keeps_driver m -> (forall a, keeps_driver (k a)) -> keeps_driver (bind m k).
Proof.
  intros Hm Hk st. unfold bind. specialize (Hm st).
  destruct (m st) as [[a|e] st1]; simpl in *; [| exact Hm].
  now rewrite Hk.
Qed.

Lemma keeps_try_except (body : M A) (handler : string -> M A) :
  keeps_driver body -> (forall e, keeps_driver (handler e)) ->
  keeps_driver (try_except body handler).
Proof.
  intros Hb Hh st. unfold try_except. specialize (Hb st).
  destruct (body st) as [[a|e] st1]; simpl in *; [exact Hb |].
  now rewrite Hh.
Qed.

End KeepsDriver.

Lemma keeps_emit (e : Event) : keeps_driver (emit e).
Proof. intros st. reflexivity. Qed.

Lemma keeps_log (l : LogLine) : keeps_driver (log l).
Proof. intros st. reflexivity. Qed.

Lemma keeps_now (E : Env) : keeps_driver (now E).
Proof. intros st. reflexivity. Qed.

Lemma keeps_choice (E : Env) {A} (seq : list A) : keeps_driver (choice E seq).
Proof. intros st. unfold choice. now destruct (nth_error _ _). Qed.

Lemma keeps_next_submission (E : Env) : keeps_driver (next_submission E).
Proof. intros st. reflexivity. Qed.

Lemma keeps_push_error (msg : string) : keeps_driver (push_error msg).
Proof. intros st. reflexivity. Qed.

Lemma keeps_save_state (E : Env) (s : json) : keeps_driver (save_state E s).
Proof. intros st. unfold save_state. now destruct (env_write E). Qed.

Ltac keeps_step :=
  lazymatch goal with
  | |- keeps_driver (bind _ _) => apply keeps_bind; [| intros ?]; cbv beta
  | |- keeps_driver (ret _) => apply keeps_ret
  | |- keeps_driver (raise _) => apply keeps_raise
  | |- keeps_driver (lift _) => apply keeps_lift
  | |- keeps_driver (log _) => apply keeps_log
  | |- keeps_driver (emit _) => apply keeps_emit
  | |- keeps_driver (now _) => apply keeps_now
  | |- keeps_driver (choice _ _) => apply keeps_choice
  | |- keeps_driver (generate_reply _) => apply keeps_choice
  | |- keeps_driver (next_submission _) => apply keeps_next_submission
  | |- keeps_driver (push_error _) => apply keeps_push_error
  | |- keeps_driver (save_state _ _) => apply keeps_save_state
  | |- keeps_driver (try_except _ _) => apply keeps_try_except; [| intros ?]
  | |- keeps_driver (if ?b then _ else _) => destruct b
  | |- keeps_driver (match ?x with _ => _ end) => destruct x
  | |- keeps_driver (let _ := _ in _) => cbv zeta
  end.

Ltac keeps_auto := repeat keeps_step.

Section KeepsDriverParts.

Variable E : Env.

Lemma keeps_create_post (dry_run : bool) (post : CommunityPost) :
  keeps_driver (create_post E dry_run post).
Proof. unfold create_post, pin_post. keeps_auto. Qed.

Lemma keeps_generate_daily_post : keeps_driver (generate_daily_post E).
Proof. unfold generate_daily_post. keeps_auto. Qed.

Lemma keeps_post_weekly_threads (dry_run : bool) (today_name : string)
      (threads : list WeeklyThread) :
  forall posts_made,
    keeps_driver (post_weekly_threads E dry_run today_name threads posts_made).
Proof.
  induction threads as [|weekly rest IH]; intros posts_made; simpl.
  - keeps_auto.
  - keeps_auto; try apply IH. apply keeps_create_post.
Qed.

Lemma keeps_post_daily_content (dry_run : bool) (posts_made : Z) :
  keeps_driver (post_daily_content E dry_run posts_made).
Proof.
  unfold post_daily_content. keeps_auto;
    first [apply keeps_generate_daily_post | apply keeps_create_post].
Qed.

Lemma keeps_reply_in_comments (max_replies : Z) (post_url : option string)
      (comments : list Comment) :
  forall replies_made,
    keeps_driver (reply_in_comments E max_replies post_url comments replies_made).
Proof.
  induction comments as [|comment rest IH]; intros replies_made; simpl.
  - keeps_auto.
  - keeps_auto; apply IH.
Qed.

Lemma keeps_reply_in_posts (max_replies : Z) (post_urls : list (option string)) :
  forall replies_made,
    keeps_driver (reply_in_posts E max_replies post_urls replies_made).
Proof.
  induction post_urls as [|post_url rest IH]; intros replies_made; simpl.
  - keeps_auto.
  - keeps_auto; try apply IH; try apply keeps_reply_in_comments.
    unfold find_comments. keeps_auto.
Qed.

Lemma keeps_reply_to_comments (dry_run : bool) (max_replies : Z) :
  keeps_driver (reply_to_comments E dry_run max_replies).
Proof. unfold reply_to_comments. keeps_auto. apply keeps_reply_in_posts. Qed.

Lemma keeps_track_weekly_threads (today_name : string) (posts_made : Z)
      (threads : list WeeklyThread) :
  forall s, keeps_driver (track_weekly_threads E today_name posts_made threads s).
Proof.
  induction threads as [|weekly rest IH]; intros s; simpl.
  - keeps_auto.
  - keeps_auto; apply IH.
Qed.

Lemma keeps_update_state (today today_name : string) (posts_made : Z)
      (state : json) :
  keeps_driver (update_state E today today_name posts_made state).
Proof. unfold update_state. keeps_auto. apply keeps_track_weekly_threads. Qed.

Lemma keeps_login : keeps_driver (login E).
Proof. unfold login. keeps_auto. Qed.

(** Once the session is assigned, [self.driver] holds it to the end of the
    session. *)
Lemma session_opened (dry_run : bool) (today today_name : string)
      (state : json) (st : St) :
  env_setup_ok E = true -> env_cdp_ok E = true ->
  st_driver (snd (session E dry_run today today_name state st)) = true.
Proof.
  intros Hsetup Hcdp. unfold session.
  rewrite (bind_eq _ _ _ _ _ (setup_browser_ok E st Hsetup Hcdp)).
  match goal with
  | |- st_driver (snd (?k ?s)) = true =>
      assert (Hk : keeps_driver k); [| now rewrite (Hk s)]
  end.
  keeps_auto;
    first [ apply keeps_login
          | apply keeps_post_weekly_threads
          | apply keeps_post_daily_content
          | apply keeps_reply_to_comments
          | apply keeps_update_state ].
Qed.

(** A session whose browser does not start, or does not accept the CDP
    command, ends there with [self.driver] as it was. *)
Lemma session_unopened (dry_run : bool) (today today_name : string)
      (state : json) (st : St) :
  env_setup_ok E && env_cdp_ok E = false ->
  session E dry_run today today_name state st
  = (Raise "WebDriverException",
     mkSt (st_ticks st) (st_draws st) (st_subs st) (st_driver st) (st_errors st)
          (st_file st)
          (st_trace st
           ++ ELog LSettingUp :: if env_setup_ok E then [EOpenSession] else [])).
Proof.
  intros H. unfold session.
  destruct (env_setup_ok E) eqn:Hsetup; simpl in H.
  - now rewrite (bind_raise _ _ _ _ _ (setup_browser_leaks E st Hsetup H)).
  - now rewrite (bind_raise _ _ _ _ _ (setup_browser_fails E st Hsetup)).
Qed.

End KeepsDriverParts.

Lemma quit_driver_unset (E : Env) (st : St) :
  st_driver st = false -> quit_driver E st = (Ret tt, st).
Proof. intros H. unfold quit_driver. now rewrite H. Qed.

(** No step of a session closes the browser. *)
Lemma session_keeps_open (E : Env) (dry_run : bool) (today today_name : string)
      (state : json) :
  hoare (fun e => e <> ECloseSession) any
        (session E dry_run today today_name state).
Proof.
  apply session_lift_steps;
    try (intros e He; destruct e; try discriminate He; discriminate).
  intros n. apply update_state_step.
  intros e He. destruct e; try discriminate He; discriminate.
Qed.

(** X4: a browser that an invocation starts is quit exactly when the CDP
    command that follows the start is accepted.  Then [quit()] is called
    once, as the last event of the run, whatever happens in between (a login
    page that does not open, a refused login, failed submissions, a listing
    that does not open, an exception in the update of the state).  When the
    CDP command raises, [self.driver] was never assigned: the routine raises
    and the browser it started is never quit. *)
Theorem opened_session_is_closed (E : Env) (dry_run : bool) (f : StateFile) :
  In EOpenSession (st_trace (snd (invoke E dry_run f))) ->
  if env_cdp_ok E
  then exists tr,
      st_trace (snd (invoke E dry_run f)) = tr ++ [ECloseSession]
      /\ ~ In ECloseSession tr
  else ~ In ECloseSession (st_trace (snd (invoke E dry_run f)))
       /\ fst (invoke E dry_run f) = Raise "WebDriverException".
Proof.
  assert (Hprefix : forall e, In e (load_prefix f) ->
                              e <> EOpenSession /\ e <> ECloseSession).
  { intros e Hin. destruct f; simpl in Hin;
      intuition (subst; discriminate). }
  destruct (invoke_cases E dry_run f)
    as [[_ ->] | [(kv & _ & _ & ->) | (kv & _ & _ & ->)]]; cbn [snd st_trace].
  - intros Hin. now destruct (Hprefix _ Hin).
  - intros Hin. apply in_app_or in Hin as [Hin | [Hin | []]];
      [now destruct (Hprefix _ Hin) | discriminate].
  - match goal with
    | |- context [try_finally (session E dry_run ?today ?name ?state)
                              (quit_driver E) ?st0] =>
        pose proof (session_opened E dry_run today name state st0) as Hopen;
        pose proof (session_unopened E dry_run today name state st0) as Hnot;
        destruct (session_keeps_open E dry_run today name state st0)
          as [(evs & Ht & HF & _) _];
        unfold try_finally
    end.
    destruct (env_setup_ok E) eqn:Hsetup; [destruct (env_cdp_ok E) eqn:Hcdp |].
    + specialize (Hopen eq_refl eq_refl).
      match goal with
      | |- context [session E dry_run ?today ?name ?state ?st0] =>
          destruct (session E dry_run today name state st0) as [r st1]
      end.
      cbn [snd st_trace] in *. rewrite Forall_forall in HF.
      intros _. unfold quit_driver. rewrite Hopen.
      unfold bind, emit. exists (load_prefix f ++ evs).
      destruct (env_quit_ok E); cbn [snd st_trace]; rewrite Ht;
        (split; [reflexivity |]);
        intros Hin; (apply in_app_or in Hin as [Hin | Hin];
                     [now destruct (Hprefix _ Hin) | now apply HF in Hin]).
    + rewrite (Hnot eq_refl), quit_driver_unset by reflexivity.
      cbn [snd fst st_trace]. intros _. split; [| reflexivity].
      intros Hin. apply in_app_or in Hin as [Hin | Hin];
        [now destruct (Hprefix _ Hin) | simpl in Hin; intuition discriminate].
    + rewrite (Hnot eq_refl), quit_driver_unset by reflexivity.
      cbn [snd fst st_trace]. intros Hin. exfalso.
      apply in_app_or in Hin as [Hin | Hin];
        [now destruct (Hprefix _ Hin) | simpl in Hin; intuition discriminate].
Qed.

Lemma opened_session_is_closed_witness :
  (exists tr,
      st_trace (snd (invoke Sample.listing_down false FileMissing))
      = tr ++ [ECloseSession]
      /\ ~ In ECloseSession tr)
  /\ ~ In ECloseSession
          (st_trace (snd (invoke Sample.stuck_devtools false FileMissing)))
  /\ fst (invoke Sample.stuck_devtools false FileMissing)
     = Raise "WebDriverException".
Proof.
  split.
  - apply (opened_session_is_closed Sample.listing_down false FileMissing).
    vm_compute. auto 10.
  - apply (opened_session_is_closed Sample.stuck_devtools false FileMissing).
    vm_compute. auto 10.
Defined.

(** ** The state a run writes *)

(** The catalog schedules at most one weekly thread per day name. *)
Lemma one_thread_a_day (today_name : string) :
  length (threads_on today_name WEEKLY_THREADS) <= 1.
Proof.
  unfold threads_on, WEEKLY_THREADS. cbn [filter wt_day].
  destruct (String.eqb_spec "monday" today_name) as [H1|H1];
    destruct (String.eqb_spec "wednesday" today_name) as [H2|H2];
    destruct (String.eqb_spec "friday" today_name) as [H3|H3];
    try congruence; simpl; lia.
Qed.

Section Counting.

Variable E : Env.
Variable P : Event -> Prop.
Hypothesis Hpost : forall e, post_step_event e = true -> P e.

(** The weekly loop adds to the counter at most one per thread of the day. *)
Lemma post_weekly_threads_counts (dry_run : bool) (today_name : string)
      (threads : list WeeklyThread) :
  forall n,
    hoare P
          (fun n' => (n <= n'
                      <= n + Z.of_nat (length (threads_on today_name threads)))%Z)
          (post_weekly_threads E dry_run today_name threads n).
Proof.
  induction threads as [|weekly rest IH]; intros n; simpl.
  - apply hoare_ret. lia.
  - destruct (wt_day weekly =? today_name); [| apply IH].
    apply (hoare_bind _ any); [apply hoare_now | intros t _].
    destruct (dt_hour t <? 12)%Z.
    + apply (hoare_bind _ any); [now apply create_post_step | intros r _].
      apply (hoare_bind _ (fun m => (n <= m <= n + 1)%Z)).
      * destruct (fst r).
        -- apply (hoare_bind _ any); [apply hoare_log; auto | intros _ _].
           apply hoare_ret. lia.
        -- apply (hoare_bind _ any); [apply hoare_log; auto | intros _ _].
           apply hoare_ret. lia.
      * intros m Hm. eapply hoare_weaken; [apply IH |].
        intros n' Hn'. cbv beta in Hn'. cbn [length]. lia.
    + eapply hoare_weaken; [apply IH |].
      intros n' Hn'. cbv beta in Hn'. cbn [length]. lia.
Qed.

(** The daily step adds at most one. *)
Lemma post_daily_content_counts (dry_run : bool) (n : Z) :
  hoare P (fun n' => (n <= n' <= n + 1)%Z) (post_daily_content E dry_run n).
Proof.
  unfold post_daily_content.
  apply (hoare_bind _ any); [hoare_auto | intros due _].
  destruct due; [| apply hoare_ret; lia].
  apply (hoare_bind _ any); [apply generate_daily_post_events | intros p _].
  apply (hoare_bind _ any); [now apply create_post_step | intros r _].
  destruct (fst r).
  - apply (hoare_bind _ any); [apply hoare_log; auto | intros _ _].
    apply hoare_ret. lia.
  - apply (hoare_bind _ any); [apply hoare_log; auto | intros _ _].
    apply hoare_ret. lia.
Qed.

End Counting.

(** A session whose update step is only known for the counters it can be
    reached with. *)
Lemma session_lift_counted (P : Event -> Prop) (E : Env) (dry_run : bool)
      (today today_name : string) (state : json) :
  (forall e, session_frame_event e = true -> P e) ->
  (forall e, post_step_event e = true -> P e) ->
  (forall e, reply_step_event e = true -> P e) ->
  (forall n, (0 <= n <= 2)%Z ->
             hoare P any (update_state E today today_name n state)) ->
  hoare P any (session E dry_run today today_name state).
Proof.
  intros Hframe Hpost Hreply Hupdate. unfold session.
  apply (hoare_bind _ any); [apply hoare_setup_browser; auto | intros _ _].
  apply (hoare_bind _ any);
    [eapply hoare_weaken; [apply hoare_login; auto | intros; exact I]
    | intros logged_in _].
  destruct (negb logged_in); [hoare_auto |].
  eapply hoare_bind; [now apply post_weekly_threads_counts | intros n Hn].
  eapply hoare_bind; [now apply post_daily_content_counts | intros n' Hn'].
  apply (hoare_bind _ any); [now apply reply_to_comments_step | intros _ _].
  pose proof (one_thread_a_day today_name).
  apply (hoare_bind _ any); [apply Hupdate; cbv beta in *; lia | intros _ _].
  hoare_auto.
Qed.

(** The tracking loop over a state whose weekly log is a dict: the log stays
    a dict, only the entry of today's name may change in it, and no other key
    of the state changes. *)
Lemma track_weekly_threads_log (E : Env) (P : Event -> Prop)
      (today_name : string) (posts_made : Z) (threads : list WeeklyThread) :
  forall kv d,
    PyDict.lookup "weekly_threads" kv = Some (JDict d) ->
    hoare P
          (fun s => exists kv' d',
               s = JDict kv'
               /\ PyDict.lookup "weekly_threads" kv' = Some (JDict d')
               /\ (forall k, k <> "weekly_threads" ->
                             PyDict.lookup k kv' = PyDict.lookup k kv)
               /\ (forall day, day <> today_name ->
                               PyDict.lookup day d' = PyDict.lookup day d))
          (track_weekly_threads E today_name posts_made threads (JDict kv)).
Proof.
  induction threads as [|weekly rest IH]; intros kv d Hd; simpl.
  - apply hoare_ret. exists kv, d. now repeat split.
  - destruct (String.eqb_spec (wt_day weekly) today_name) as [Hday|];
      simpl; [| now apply IH].
    destruct (posts_made >? 0)%Z; [| now apply IH].
    apply (hoare_bind _ any); [apply hoare_now | intros t _].
    rewrite Hd.
    apply hoare_bind_lift; intros log_dict [= <-].
    apply hoare_bind_lift; intros log_dict' [= <-].
    apply hoare_bind_lift; intros s' [= <-].
    eapply hoare_weaken; [apply IH; apply lookup_store_same |].
    intros s (kv' & d' & -> & Hd' & Hkv' & Hdays).
    exists kv', d'. repeat split; trivial.
    + intros k Hk. rewrite Hkv' by exact Hk.
      now apply lookup_store_other.
    + intros day Hne. rewrite Hdays by exact Hne.
      apply lookup_store_other. congruence.
Qed.

(** The update block over a loaded dict whose weekly log, if any, is a dict
    saves a state of the expected shape. *)
Lemma update_state_shape (E : Env) (P : Event -> Prop)
      (today today_name : string) (n : Z) (kv : list (string * json)) :
  weekly_log_ok kv ->
  (0 <= n <= 2)%Z ->
  (forall j, saved_shape kv today today_name j -> P (ESaveState j)) ->
  (forall part, P (ESaveBroken part)) ->
  P (ELog LCouldNotSave) ->
  hoare P any (update_state E today today_name n (JDict kv)).
Proof.
  intros Hok Hn Hsave Hbroken Hlog. unfold update_state.
  apply hoare_bind_lift; intros s1 [= <-].
  apply hoare_bind_lift; intros s2 [= <-].
  apply hoare_bind_lift; intros previous [= <-].
  apply hoare_bind_lift; intros s3 [= <-].
  rewrite !lookup_store_other by discriminate.
  assert (Hlog0 : exists d, weekly_log_of kv = JDict d).
  { unfold weekly_log_of. destruct Hok as [-> | [d ->]]; eauto. }
  destruct Hlog0 as [d Hd]. unfold weekly_log_of in Hd.
  eapply hoare_bind.
  - apply (track_weekly_threads_log E P today_name n WEEKLY_THREADS _ d).
    rewrite lookup_store_same. now rewrite Hd.
  - intros s (kv' & d' & -> & Hd' & Hkv' & Hdays).
    apply hoare_save_state; [intros _ | now intros | exact Hlog]. apply Hsave.
    exists kv', d, d', n. repeat split; trivial; try lia.
    + rewrite Hkv' by discriminate.
      rewrite !lookup_store_other by discriminate. apply lookup_store_same.
    + rewrite Hkv' by discriminate.
      rewrite lookup_store_other by discriminate. apply lookup_store_same.
Qed.

(** X5: over a loaded dict whose ['weekly_threads'] entry is absent or a
    dict, every state a run saves has ['last_run'] set to the date of the
    run, ['posts_made'] set to an integer between 0 and 2, and
    ['weekly_threads'] set to a dict that differs from the loaded one (or
    from the empty dict) at most in the entry of today's day name. *)
Theorem saved_state_shape (E : Env) (dry_run : bool) (f : StateFile)
        (kv : list (string * json)) (j : json) :
  loaded f = JDict kv ->
  weekly_log_ok kv ->
  In (ESaveState j) (st_trace (snd (invoke E dry_run f))) ->
  saved_shape kv (dt_date (env_now E 0))
              (PyStr.lower (strftime_A (dt_weekday (env_now E 1)))) j.
Proof.
  intros Hloaded Hok Hin.
  assert (HF : Forall (fun e => forall j0, e = ESaveState j0 ->
                         saved_shape kv (dt_date (env_now E 0))
                           (PyStr.lower (strftime_A (dt_weekday (env_now E 1))))
                           j0)
                      (st_trace (snd (invoke E dry_run f)))).
  { apply invoke_session_lift; try (intros j0 Hj0; discriminate).
    intros kv0 Hkv0. rewrite Hloaded in Hkv0. injection Hkv0 as <-.
    apply session_lift_counted;
      try (intros e He j0 ->; discriminate He).
    intros n Hn. apply update_state_shape; trivial.
    - intros j0 Hj0 j1 [= <-]. exact Hj0.
    - intros part j0 Hj0. discriminate.
    - intros j0 Hj0. discriminate. }
  rewrite Forall_forall in HF. now apply (HF _ Hin).
Qed.

Lemma saved_state_shape_witness :
  saved_shape [("note", JStr "keep me"); ("last_run", JStr "2023-12-31")]
              "2024-01-01" "monday"
              (JDict [("note", JStr "keep me"); ("last_run", JStr "2024-01-01");
                      ("posts_made", JInt 1);
                      ("weekly_threads",
                       JDict [("monday", JStr "2024-01-01T09:00:00")])]).
Proof.
  apply (saved_state_shape Sample.calm false Sample.yesterday
           [("note", JStr "keep me"); ("last_run", JStr "2023-12-31")]).
  - reflexivity.
  - now left.
  - vm_compute. auto 40.
Defined.

(** ** How many posts a run creates *)

Lemma created_posts_none (evs : list Event) :
  Forall (fun e => is_creating e = false) evs -> created_posts evs = [].
Proof.
  induction 1 as [|e evs He _ IH]; [reflexivity |].
  destruct e as [| | | | | | | | | |l]; simpl; trivial.
  destruct l; trivial; discriminate.
Qed.

Section Creates.

Context {A B : Type}.

Lemma creates_of_hoare (Q : A -> Prop) (m : M A) :
  hoare (fun e => is_creating e = false) Q m -> creates 0 m.
Proof.
  intros Hm st. destruct (Hm st) as [(evs & -> & HF & _) _].
  rewrite created_posts_app, (created_posts_none evs HF), app_nil_r. lia.
Qed.

Lemma creates_bind (n n' : nat) (m : M A) (k : A -> M B) :
  creates n m -> (forall a, creates n' (k a)) -> creates (n + n') (bind m k).
Proof.
  intros Hm Hk st. unfold bind. specialize (Hm st).
  destruct (m st) as [[a|e] st1]; simpl in *; [| lia].
  specialize (Hk a st1). lia.
Qed.

Lemma creates_mono (n n' : nat) (m : M A) :
  n <= n' -> creates n m -> creates n' m.
Proof. intros Hle Hm st. specialize (Hm st). lia. Qed.

Lemma creates_try_finally (n : nat) (body : M A) (fin : M unit) :
  creates n body -> creates 0 fin -> creates n (try_finally body fin).
Proof.
  intros Hb Hf st. unfold try_finally. specialize (Hb st).
  destruct (body st) as [r st1]. specialize (Hf st1).
  destruct (fin st1) as [[[]|e] st2]; simpl in *; lia.
Qed.

End Creates.

Section CreatesParts.

Variable E : Env.

Lemma creates_create_post (dry_run : bool) (post : CommunityPost) :
  creates 1 (create_post E dry_run post).
Proof.
  intros st.
  destruct (create_post_creates E dry_run post st) as (r & st' & -> & Hposts).
  simpl. rewrite Hposts, length_app. simpl. lia.
Qed.

Lemma creates_silent_log (l : LogLine) :
  is_creating (ELog l) = false -> creates 0 (log l).
Proof. intros Hl. apply (creates_of_hoare any). now apply hoare_log. Qed.

Lemma creates_post_weekly_threads (dry_run : bool) (today_name : string)
      (threads : list WeeklyThread) :
  forall n,
    creates (length (threads_on today_name threads))
            (post_weekly_threads E dry_run today_name threads n).
Proof.
  induction threads as [|weekly rest IH]; intros n; simpl.
  - apply (creates_of_hoare any). now apply hoare_ret.
  - destruct (wt_day weekly =? today_name); [| apply IH].
    apply (creates_bind 0); [apply (creates_of_hoare any), hoare_now |].
    intros t. destruct (dt_hour t <? 12)%Z.
    + change (length (weekly :: threads_on today_name rest))
        with (1 + length (threads_on today_name rest)).
      apply (creates_bind 1 _ _ _ (creates_create_post _ _)).
      intros r. apply (creates_bind 0); [| intros m; apply IH].
      destruct (fst r);
        (apply (creates_bind 0 0);
         [now apply creates_silent_log
         | intros _; apply (creates_of_hoare any); now apply hoare_ret]).
    + apply (creates_mono (length (threads_on today_name rest)));
        [apply Nat.le_succ_diag_r | apply IH].
Qed.

Lemma creates_post_daily_content (dry_run : bool) (n : Z) :
  creates 1 (post_daily_content E dry_run n).
Proof.
  unfold post_daily_content.
  apply (creates_bind 0 1).
  { apply (creates_of_hoare any). hoare_auto. }
  intros due. destruct due;
    [| eapply creates_mono;
       [| apply (creates_of_hoare any); now apply hoare_ret]; lia].
  apply (creates_bind 0 1);
    [apply (creates_of_hoare any), generate_daily_post_events |].
  intros p. apply (creates_bind 1 0 _ _ (creates_create_post _ _)).
  intros r. destruct (fst r);
    (apply (creates_bind 0 0);
     [now apply creates_silent_log
     | intros _; apply (creates_of_hoare any); now apply hoare_ret]).
Qed.

Lemma creates_session (dry_run : bool) (today today_name : string)
      (state : json) :
  creates (length (threads_on today_name WEEKLY_THREADS) + 1)
          (session E dry_run today today_name state).
Proof.
  unfold session.
  apply (creates_bind 0).
  { apply (creates_of_hoare any). now apply hoare_setup_browser. }
  intros _. apply (creates_bind 0).
  { eapply creates_of_hoare. now apply hoare_login. }
  intros logged_in. destruct (negb logged_in).
  { eapply creates_mono; [| now apply creates_silent_log]. lia. }
  apply creates_bind; [apply creates_post_weekly_threads |].
  intros n. apply (creates_bind 1 0); [apply creates_post_daily_content |].
  intros n'. apply (creates_bind 0 0).
  { apply (creates_of_hoare any). apply reply_to_comments_step.
    intros e He. destruct e as [| | | | | | | | | |l]; trivial; try discriminate.
    destruct l; trivial; discriminate. }
  intros _. apply (creates_bind 0 0).
  { apply (creates_of_hoare any). apply update_state_step.
    intros e He. destruct e as [| | | | | | | | | |l]; trivial; try discriminate.
    destruct l; trivial; discriminate. }
  intros _. now apply creates_silent_log.
Qed.

End CreatesParts.

(** X6: an invocation hands at most two posts to [create_post], in either
    mode: at most one weekly thread (the catalog has at most one per day
    name) and at most one daily post. *)
Theorem at_most_two_posts_a_run (E : Env) (dry_run : bool) (f : StateFile) :
  length (created_posts (st_trace (snd (invoke E dry_run f)))) <= 2.
Proof.
  destruct (invoke_cases E dry_run f)
    as [[_ ->] | [(kv & _ & _ & ->) | (kv & _ & _ & ->)]]; cbn [snd st_trace].
  - destruct f; simpl; lia.
  - destruct f; simpl; lia.
  - match goal with
    | |- context [try_finally (session E dry_run ?today ?name ?state)
                              (quit_driver E) ?st0] =>
        pose proof (creates_try_finally _ _ (quit_driver E)
                      (creates_session E dry_run today name state)
                      (creates_of_hoare any _
                         (hoare_quit_driver _ _ eq_refl)) st0) as H;
        pose proof (one_thread_a_day name) as H1
    end.
    cbn [st_trace] in H.
    assert (created_posts (load_prefix f) = []) as H0
        by (destruct f; reflexivity).
    rewrite H0 in H. change (length (@nil CommunityPost)) with 0 in H. lia.
Qed.

(** ** Runs that return *)

Section Returns.

Context {A B : Type}.

Lemma returns_ret (Q : A -> Prop) (a : A) : Q a -> returns Q (ret a).
Proof. intros HQ st. now exists a. Qed.

Lemma returns_bind (Q : A -> Prop) (R : B -> Prop) (m : M A) (k : A -> M B) :
  returns Q m -> (forall a, Q a -> returns R (k a)) -> returns R (bind m k).
Proof.
  intros Hm Hk st. destruct (Hm st) as (a & Ha & HQ). unfold bind.
  destruct (m st) as [[a'|e] st1]; simpl in Ha; [| discriminate].
  injection Ha as ->. now apply Hk.
Qed.

End Returns.

Lemma returns_bind_lift {A B} (R : B -> Prop) (a : A) (k : A -> M B) :
  returns R (k a) -> returns R (bind (lift (Ret a)) k).
Proof. intros H st. exact (H st). Qed.

Lemma returns_log (l : LogLine) : returns any (log l).
Proof. intros st. now exists tt. Qed.

Lemma returns_now (E : Env) : returns any (now E).
Proof. intros st. eexists. now split. Qed.

Section ReturnsParts.

Variable E : Env.

Lemma returns_create_post (dry_run : bool) (post : CommunityPost) :
  returns any (create_post E dry_run post).
Proof.
  intros st.
  destruct (create_post_creates E dry_run post st) as (r & st' & -> & _).
  now exists r.
Qed.

Lemma returns_generate_daily_post : returns any (generate_daily_post E).
Proof.
  intros st. pose proof (generate_daily_post_ok E st) as H.
  destruct (generate_daily_post E st) as [[p|e] st']; [| contradiction].
  now exists p.
Qed.

Lemma returns_post_weekly_threads (dry_run : bool) (today_name : string)
      (threads : list WeeklyThread) :
  forall n, returns any (post_weekly_threads E dry_run today_name threads n).
Proof.
  induction threads as [|weekly rest IH]; intros n; simpl.
  - now apply returns_ret.
  - destruct (wt_day weekly =? today_name); [| apply IH].
    apply (returns_bind any); [apply returns_now | intros t _].
    destruct (dt_hour t <? 12)%Z; [| apply IH].
    apply (returns_bind any); [apply returns_create_post | intros r _].
    apply (returns_bind any); [| intros m _; apply IH].
    destruct (fst r);
      (apply (returns_bind any); [apply returns_log | intros _ _];
       now apply returns_ret).
Qed.

Lemma returns_post_daily_content (dry_run : bool) (n : Z) :
  returns any (post_daily_content E dry_run n).
Proof.
  unfold post_daily_content.
  apply (returns_bind any).
  { destruct (n =? 0)%Z; [now apply returns_ret |].
    apply (returns_bind any); [apply returns_now | intros t _].
    now apply returns_ret. }
  intros due _. destruct due; [| now apply returns_ret].
  apply (returns_bind any); [apply returns_generate_daily_post | intros p _].
  apply (returns_bind any); [apply returns_create_post | intros r _].
  destruct (fst r);
    (apply (returns_bind any); [apply returns_log | intros _ _];
     now apply returns_ret).
Qed.

(** What the reply step gives back. *)
Lemma reply_to_comments_result (dry_run : bool) (max_replies : Z) (st : St) :
  fst (reply_to_comments E dry_run max_replies st)
  = if dry_run then Ret tt else reply_outcome E.
Proof.
  destruct dry_run; [reflexivity |].
  destruct (reply_to_comments_bound E max_replies st) as (st' & _ & -> & _).
  reflexivity.
Qed.

Lemma returns_track_weekly_threads (today_name : string) (posts_made : Z)
      (threads : list WeeklyThread) :
  forall kv d,
    PyDict.lookup "weekly_threads" kv = Some (JDict d) ->
    returns any (track_weekly_threads E today_name posts_made threads (JDict kv)).
Proof.
  induction threads as [|weekly rest IH]; intros kv d Hd; simpl.
  - now apply returns_ret.
  - destruct (_ && _); [| now apply (IH kv d)].
    apply (returns_bind any); [apply returns_now | intros t _].
    rewrite Hd.
    do 3 apply returns_bind_lift.
    eapply IH. apply lookup_store_same.
Qed.

(** Over a dict whose weekly log is absent or a dict, the update block
    returns, whatever the write does. *)
Lemma returns_update_state (today today_name : string) (n : Z)
      (kv : list (string * json)) :
  weekly_log_ok kv ->
  returns any (update_state E today today_name n (JDict kv)).
Proof.
  intros Hok. unfold update_state.
  do 3 apply returns_bind_lift. cbv beta.
  rewrite !lookup_store_other by discriminate.
  assert (Hd : exists d, match PyDict.lookup "weekly_threads" kv with
                         | Some v => v
                         | None => JDict []
                         end = JDict d)
    by (destruct Hok as [-> | [d ->]]; eauto).
  destruct Hd as [d ->]. apply returns_bind_lift.
  apply (returns_bind any).
  - eapply returns_track_weekly_threads. apply lookup_store_same.
  - intros s _ st. unfold save_state.
    destruct (env_write E); now exists tt.
Qed.

Lemma returns_run {A} (Q : A -> Prop) (m : M A) (st : St) :
  returns Q m -> exists a st', m st = (Ret a, st').
Proof.
  intros H. destruct (H st) as (a & Ha & _).
  destruct (m st) as [r st']. simpl in Ha. subst r. now exists a, st'.
Qed.

(** A session on such a dict returns exactly when the calls that stand
    outside its [try ... except] blocks do. *)
Lemma session_result (dry_run : bool) (today today_name : string)
      (kv : list (string * json)) (st : St) :
  weekly_log_ok kv ->
  fst (session E dry_run today today_name (JDict kv) st) = Ret tt
  <-> session_returns E dry_run = true.
Proof.
  intros Hok. unfold session_returns.
  destruct (env_setup_ok E && env_cdp_ok E) eqn:Hopen.
  2: { rewrite session_unopened by exact Hopen. cbn [fst andb].
       split; discriminate. }
  apply andb_true_iff in Hopen as [Hsetup Hcdp]. unfold session.
  rewrite (bind_eq _ _ _ _ _ (setup_browser_ok E st Hsetup Hcdp)). cbv beta.
  destruct (env_login_get_ok E) eqn:Hget.
  2: { rewrite (bind_raise _ _ _ _ _ (login_raises E _ Hget)). cbn [fst andb].
       split; discriminate. }
  rewrite (bind_eq _ _ _ _ _ (login_run E _ Hget)). cbv beta.
  destruct (env_login_ok E); cbn [negb andb orb]; [| split; reflexivity].
  match goal with
  | |- context [bind (post_weekly_threads E dry_run today_name
                                          WEEKLY_THREADS 0) _ ?s] =>
      destruct (returns_run any _ s
                  (returns_post_weekly_threads dry_run today_name
                     WEEKLY_THREADS 0)) as (n1 & st1 & H1)
  end.
  rewrite (bind_eq _ _ _ _ _ H1). cbv beta.
  destruct (returns_run any _ st1 (returns_post_daily_content dry_run n1))
    as (n2 & st2 & H2).
  rewrite (bind_eq _ _ _ _ _ H2). cbv beta.
  destruct (returns_run any _ (snd (reply_to_comments E dry_run 3 st2))
              (returns_update_state today today_name n2 kv Hok))
    as ([] & st4 & H4).
  pose proof (reply_to_comments_result dry_run 3 st2) as H3.
  destruct (reply_to_comments E dry_run 3 st2) as [r3 st3] eqn:Hr3.
  cbn [fst snd] in H3, H4. unfold reply_outcome in H3.
  destruct r3 as [[]|e3].
  - rewrite (bind_eq _ _ _ _ _ Hr3). cbv beta.
    rewrite (bind_eq _ _ _ _ _ H4). cbn [fst].
    split; [intros _ | reflexivity].
    destruct dry_run; [reflexivity |].
    destruct (env_listing_get_ok E); [reflexivity | discriminate].
  - rewrite (bind_raise _ _ _ _ _ Hr3). cbn [fst].
    split; [discriminate |].
    destruct dry_run; [discriminate |].
    destruct (env_listing_get_ok E); discriminate.
Qed.

End ReturnsParts.

(** X7: over a state file whose loaded value is a dict with no
    ['weekly_threads'] entry or a dict there, an invocation returns without
    an exception exactly when it is stopped by the duplicate check or every
    call that stands outside the [try ... except] blocks returns: the start
    of the browser, the CDP command, the opening of the login page, the
    opening of the listing (when the login is accepted outside dry-run) and
    [quit()].  Whatever the login form, the submissions, the pins, the pages
    of the reply step and the write of the state file do has no part in
    it. *)
Theorem routine_returns (E : Env) (dry_run : bool) (f : StateFile)
        (kv : list (string * json)) :
  loaded f = JDict kv ->
  weekly_log_ok kv ->
  fst (invoke E dry_run f) = Ret tt
  <-> skipped E dry_run kv || (session_returns E dry_run && env_quit_ok E)
      = true.
Proof.
  intros Hloaded Hok.
  destruct (invoke_cases E dry_run f)
    as [[Hno _] | [(kv0 & Hkv0 & Hskip & ->) | (kv0 & Hkv0 & Hskip & ->)]].
  - now destruct (Hno kv).
  - rewrite Hloaded in Hkv0. injection Hkv0 as <-.
    unfold skipped. rewrite Hskip. split; reflexivity.
  - rewrite Hloaded in Hkv0. injection Hkv0 as <-.
    unfold skipped. rewrite Hskip. cbn [orb].
    match goal with
    | |- context [try_finally (session E dry_run ?today ?name (JDict kv))
                              (quit_driver E) ?st0] =>
        pose proof (session_result E dry_run today name kv st0 Hok) as Hres;
        pose proof (session_opened E dry_run today name (JDict kv) st0) as Hopen;
        unfold try_finally;
        destruct (session E dry_run today name (JDict kv) st0) as [r st1]
    end.
    cbn [fst snd] in Hres, Hopen.
    destruct (session_returns E dry_run) eqn:Hs; cbn [andb].
    + assert (Hr : r = Ret tt) by now apply Hres. subst r.
      unfold session_returns in Hs.
      apply andb_true_iff in Hs as [Hs _]. apply andb_true_iff in Hs as [Hs _].
      apply andb_true_iff in Hs as [Hsetup Hcdp].
      unfold quit_driver. rewrite (Hopen Hsetup Hcdp). unfold bind, emit.
      destruct (env_quit_ok E); cbn [fst ret raise];
        split; try reflexivity; discriminate.
    + split; [| discriminate]. intros Hret. exfalso.
      destruct r as [[]|e].
      * assert (false = true) by now apply Hres. discriminate.
      * destruct (quit_driver E st1) as [[[]|e'] st2]; discriminate Hret.
Qed.

Lemma routine_returns_witness :
  fst (invoke Sample.broken_controls false Sample.yesterday) = Ret tt
  /\ fst (invoke Sample.listing_down false Sample.yesterday) <> Ret tt.
Proof.
  split.
  - apply (routine_returns Sample.broken_controls false Sample.yesterday
             [("note", JStr "keep me"); ("last_run", JStr "2023-12-31")]
             eq_refl (or_introl eq_refl)).
    reflexivity.
  - intros Hret.
    apply (routine_returns Sample.listing_down false Sample.yesterday
             [("note", JStr "keep me"); ("last_run", JStr "2023-12-31")]
             eq_refl (or_introl eq_refl)) in Hret.
    discriminate Hret.
Defined.

(** ** Whom the reply step answers *)

Section ReplyTargets.

Variable E : Env.

Lemma hoare_generate_reply (P : Event -> Prop) :
  hoare P (fun text => In text replies) (generate_reply E).
Proof.
  intros st. split; [apply (hoare_choice E P replies st) |].
  unfold generate_reply, choice.
  destruct (nth_error replies _) as [text|] eqn:Hnth; [| discriminate].
  intros a [= <-]. eapply nth_error_In; eauto.
Qed.

Lemma hoare_find_comments (P : Event -> Prop) (post_url : option string) :
  hoare P (fun comments => comments = page_comments E post_url)
        (find_comments E post_url).
Proof.
  intros st. split; [apply (find_comments_events E P post_url st) |].
  unfold find_comments, page_comments.
  destruct post_url as [u|]; [| discriminate].
  destruct (env_page E u); [| discriminate]. simpl. now intros a [= <-].
Qed.

Lemma reply_in_comments_targets (max_replies : Z) (post_url : option string)
      (comments : list Comment) :
  (forall c, In c comments ->
             In c (flat_map (page_comments E) (window_urls E))) ->
  forall made,
    hoare (reply_target E) any
          (reply_in_comments E max_replies post_url comments made).
Proof.
  induction comments as [|c rest IH]; intros Hin made; simpl.
  - hoare_auto.
  - assert (Hrest : forall c', In c' rest ->
                               In c' (flat_map (page_comments E) (window_urls E)))
      by (intros c' Hc'; apply Hin; now right).
    destruct (own_comment E c) eqn:Hown; [now apply IH |].
    destruct (c_has_replies c) eqn:Hhas; [now apply IH |].
    assert (Hel : eligible E c = true)
      by (unfold eligible; now rewrite Hown, Hhas).
    assert (Hc : In c (flat_map (page_comments E) (window_urls E)))
      by (apply Hin; now left).
    apply (hoare_bind _ any);
      [apply hoare_emit; [now split | reflexivity] | intros _ _].
    destruct (c_reply c).
    + hoare_auto.
    + hoare_auto.
    + apply (hoare_bind _ (fun text => In text replies));
        [apply hoare_generate_reply | intros text Htext].
      apply (hoare_bind _ any);
        [apply hoare_emit; [now repeat split | reflexivity] | intros _ _].
      cbv zeta.
      apply (hoare_bind _ any); [now apply hoare_log | intros _ _].
      destruct (_ >=? _)%Z; [hoare_auto | now apply IH].
Qed.

Lemma reply_in_posts_targets (max_replies : Z)
      (post_urls : list (option string)) :
  (forall u, In u post_urls -> In u (window_urls E)) ->
  forall made,
    hoare (reply_target E) any
          (reply_in_posts E max_replies post_urls made).
Proof.
  induction post_urls as [|post_url rest IH]; intros Hin made; simpl.
  - hoare_auto.
  - assert (Hrest : forall u, In u rest -> In u (window_urls E))
      by (intros u Hu; apply Hin; now right).
    assert (Hu : In post_url (window_urls E)) by (apply Hin; now left).
    destruct (_ >=? _)%Z; [hoare_auto |].
    apply (hoare_bind _ any); [| intros made' _; now apply IH].
    apply hoare_try_except; [| intros e; hoare_auto].
    apply (hoare_bind _ any);
      [apply hoare_emit; [now right | reflexivity] | intros _ _].
    eapply hoare_bind; [apply hoare_find_comments | intros comments ->].
    apply reply_in_comments_targets.
    intros c Hc. apply in_flat_map. now exists post_url.
Qed.

Lemma reply_to_comments_targets (dry_run : bool) (max_replies : Z) :
  hoare (reply_target E) any (reply_to_comments E dry_run max_replies).
Proof.
  unfold reply_to_comments.
  apply (hoare_bind _ any); [now apply hoare_log | intros _ _].
  destruct dry_run; [now apply hoare_log |].
  apply (hoare_bind _ any);
    [apply hoare_emit; [now left | reflexivity] | intros _ _].
  destruct (env_listing_get_ok E) eqn:Hget; [| apply hoare_raise].
  apply hoare_try_except; [| intros e; now apply hoare_log].
  destruct (env_listing E) as [containers|] eqn:Hlist; [| apply hoare_raise].
  cbv zeta.
  apply (hoare_bind _ any); [now apply hoare_log | intros _ _].
  apply (hoare_bind _ any); [| intros made _; now apply hoare_log].
  apply reply_in_posts_targets.
  intros u Hu. unfold window_urls. now rewrite Hget, Hlist.
Qed.

End ReplyTargets.

(** X8: the reply step opens only the listing and post URLs kept from its
    first ten containers, looks up the reply controls only of comments of
    those posts that are not the account's own and bear no reply, and
    submits only texts of the canned list; this holds of every call of
    [reply_to_comments] and of every event of an invocation. *)
Theorem replies_go_to_eligible_comments (E : Env) (dry_run : bool) :
  (forall max_replies st,
      exists evs,
        st_trace (snd (reply_to_comments E dry_run max_replies st))
        = st_trace st ++ evs
        /\ Forall (reply_target E) evs)
  /\ forall f, Forall (reply_target E) (st_trace (snd (invoke E dry_run f))).
Proof.
  split.
  - intros max_replies st.
    destruct (reply_to_comments_targets E dry_run max_replies st)
      as [(evs & Hevs & HF & _) _].
    now exists evs.
  - intros f. apply invoke_session_lift; try exact I.
    intros kv _. apply session_lift.
    + intros e He. destruct e; try discriminate He; exact I.
    + intros n. apply post_weekly_threads_step.
      intros e He. destruct e; try discriminate He; exact I.
    + intros n. apply post_daily_content_step.
      intros e He. destruct e; try discriminate He; exact I.
    + apply reply_to_comments_targets.
    + intros n. apply update_state_step.
      intros e He. destruct e; try discriminate He; exact I.
Qed.

(** ** The URLs of the reply window *)

Lemma collect_urls_In (post_elements : list Href) (u : option string) :
  In u (collect_urls post_elements) ->
  exists link, In link post_elements /\ post_url_of link = Some u.
Proof.
  induction post_elements as [|link rest IH]; simpl; [intros [] |].
  destruct (post_url_of link) as [v|] eqn:Hlink.
  - intros [<- | Hin].
    + exists link. split; [now left | exact Hlink].
    + destruct (IH Hin) as (l & Hl & Hu). exists l. split; [now right | exact Hu].
  - intros Hin. destruct (IH Hin) as (l & Hl & Hu).
    exists l. split; [now right | exact Hu].
Qed.

Lemma collect_urls_kept (post_elements : list Href) (link : Href)
      (u : option string) :
  In link post_elements -> post_url_of link = Some u ->
  In u (collect_urls post_elements).
Proof.
  induction post_elements as [|l rest IH]; simpl; [intros [] |].
  intros [-> | Hin] Hu.
  - rewrite Hu. now left.
  - destruct (post_url_of l); [right |]; now apply IH.
Qed.

Lemma post_url_of_href (href : string) :
  post_url_of (HrefIs href) = Some (Some (absolute href)).
Proof.
  unfold post_url_of, absolute.
  now destruct (negb (href =? "") && negb (PyStr.startswith href "http")).
Qed.

Lemma absolute_or_empty (href : string) :
  absolute href = "" \/ PyStr.startswith (absolute href) "http" = true.
Proof.
  unfold absolute. destruct (href =? "") eqn:Hempty; simpl.
  - left. now apply String.eqb_eq.
  - destruct (PyStr.startswith href "http") eqn:Hhttp; simpl; right;
      [exact Hhttp | reflexivity].
Qed.

(** X9: the URLs the reply step keeps are those of the [href]s of the first
    ten post containers of a listing that opened: an [href] that is empty or
    starts with [http] is kept as it is, any other is put behind
    [https://www.reddit.com].  Hence every kept URL is empty or absolute,
    and every such [href] is kept. *)
Theorem kept_urls_are_absolute (E : Env) :
  (forall u,
      In (Some u) (window_urls E) ->
      (u = "" \/ PyStr.startswith u "http" = true)
      /\ exists containers href,
          env_listing_get_ok E = true
          /\ env_listing E = Some containers
          /\ In (HrefIs href) (firstn 10 containers)
          /\ u = if (href =? "") || PyStr.startswith href "http"
                 then href
                 else ("https://www.reddit.com" ++ href)%string)
  /\ (forall containers href,
         env_listing_get_ok E = true ->
         env_listing E = Some containers ->
         In (HrefIs href) (firstn 10 containers) ->
         In (Some (if (href =? "") || PyStr.startswith href "http"
                   then href
                   else ("https://www.reddit.com" ++ href)%string))
            (window_urls E)).
Proof.
  assert (Habs : forall href,
             absolute href
             = if (href =? "") || PyStr.startswith href "http"
               then href
               else ("https://www.reddit.com" ++ href)%string).
  { intros href. unfold absolute.
    now destruct (href =? ""), (PyStr.startswith href "http"). }
  unfold window_urls. split.
  - intros u.
    destruct (env_listing_get_ok E); [| intros []].
    destruct (env_listing E) as [containers|]; [| intros []].
    intros Hin. apply collect_urls_In in Hin as (link & Hl & Hlink).
    destruct link as [| |href]; try discriminate Hlink.
    rewrite post_url_of_href in Hlink. injection Hlink as <-.
    split; [apply absolute_or_empty |].
    exists containers, href. now rewrite <- Habs.
  - intros containers href -> -> Hin. rewrite <- Habs.
    eapply collect_urls_kept; [exact Hin | apply post_url_of_href].
Qed.

Lemma kept_urls_are_absolute_witness :
  In (Some "https://www.reddit.com/r/Hypnotheraai/comments/1/")
     (window_urls Sample.calm)
  /\ PyStr.startswith "https://www.reddit.com/r/Hypnotheraai/comments/1/" "http"
     = true.
Proof.
  destruct (kept_urls_are_absolute Sample.calm) as [Hsound Hkept].
  assert (Hin : In (Some "https://www.reddit.com/r/Hypnotheraai/comments/1/")
                   (window_urls Sample.calm)).
  { apply (Hkept [HrefIs "/r/Hypnotheraai/comments/1/"]
                 "/r/Hypnotheraai/comments/1/"); try reflexivity. now left. }
  split; [exact Hin |].
  destruct (Hsound _ Hin) as [[H | H] _]; [discriminate H | exact H].
Defined.

(** ** The daily post *)

Lemma silent_trace {A} (m : M A) (st : St) :
  hoare (fun _ => False) any m -> st_trace (snd (m st)) = st_trace st.
Proof.
  intros Hm. destruct (Hm st) as [(evs & -> & HF & _) _].
  destruct HF as [|e evs []]. apply app_nil_r.
Qed.

(** A generated daily post, with the trace untouched. *)
Lemma generate_daily_post_run (E : Env) (st : St) :
  exists p st',
    generate_daily_post E st = (Ret p, st')
    /\ daily_ok p /\ st_trace st' = st_trace st.
Proof.
  pose proof (generate_daily_post_ok E st) as H.
  pose proof (silent_trace (generate_daily_post E) st
                (generate_daily_post_events E _)) as Ht.
  destruct (generate_daily_post E st) as [[p|e] st']; [| contradiction].
  now exists p, st'.
Qed.

Section KeepsTicks.

Context {A B : Type}.

Lemma ticks_bind (m : M A) (k : A -> M B) :
  keeps_ticks m -> (forall a, keeps_ticks (k a)) -> keeps_ticks (bind m k).
Proof.
  intros Hm Hk st. unfold bind. specialize (Hm st).
  destruct (m st) as [[a|e] st1]; simpl in *; [| exact Hm].
  now rewrite Hk.
Qed.

Lemma ticks_pure (r : result A) : keeps_ticks (lift r).
Proof. intros st. reflexivity. Qed.

End KeepsTicks.

Lemma ticks_emit (e : Event) : keeps_ticks (emit e).
Proof. intros st. reflexivity. Qed.

Lemma ticks_choice (E : Env) {A} (seq : list A) : keeps_ticks (choice E seq).
Proof. intros st. unfold choice. now destruct (nth_error _ _). Qed.

Ltac ticks_step :=
  lazymatch goal with
  | |- keeps_ticks (bind _ _) => apply ticks_bind; [| intros ?]; cbv beta
  | |- keeps_ticks (ret _) => apply ticks_pure
  | |- keeps_ticks (raise _) => apply ticks_pure
  | |- keeps_ticks (lift _) => apply ticks_pure
  | |- keeps_ticks (log _) => apply ticks_emit
  | |- keeps_ticks (emit _) => apply ticks_emit
  | |- keeps_ticks (choice _ _) => apply ticks_choice
  | |- keeps_ticks (next_submission _) => intros ?; reflexivity
  | |- keeps_ticks (push_error _) => intros ?; reflexivity
  | |- keeps_ticks (if ?b then _ else _) => destruct b
  | |- keeps_ticks (match ?x with _ => _ end) => destruct x
  | |- keeps_ticks (let _ := _ in _) => cbv zeta
  end.

(** Neither the post generator nor [create_post] reads the clock. *)
Lemma ticks_generate_daily_post (E : Env) : keeps_ticks (generate_daily_post E).
Proof. unfold generate_daily_post. repeat ticks_step. Qed.

Lemma ticks_create_post (E : Env) (dry_run : bool) (post : CommunityPost) :
  keeps_ticks (create_post E dry_run post).
Proof. unfold create_post, pin_post. repeat ticks_step. Qed.

(** X10: the daily step hands one generated post to [create_post] exactly
    when the counter it receives is 0 or the clock shows 14:00 or later; it
    reads the clock once when the counter is not 0 and not at all when it
    is 0; it returns in every case, with the counter kept or raised by one,
    and kept when no post is due. *)
Theorem daily_post_when_due (E : Env) (dry_run : bool) (n : Z) (st : St) :
  exists n' st' ps,
    post_daily_content E dry_run n st = (Ret n', st')
    /\ created_posts (st_trace st') = created_posts (st_trace st) ++ ps
    /\ (n <= n' <= n + 1)%Z
    /\ st_ticks st' = (if (n =? 0)%Z then st_ticks st else S (st_ticks st))
    /\ if (n =? 0)%Z || (dt_hour (env_now E (st_ticks st)) >=? 14)%Z
       then exists p, ps = [p] /\ daily_ok p
       else ps = [] /\ n' = n.
Proof.
  unfold post_daily_content.
  assert (Hpost : forall st0,
             exists n' st' p,
               (daily_post <- generate_daily_post E ;;
                r <- create_post E dry_run daily_post ;;
                if fst r
                then log LPostedDaily ;;; ret (n + 1)%Z
                else log (LFailedDaily (snd r)) ;;; ret n) st0
               = (Ret n', st')
               /\ created_posts (st_trace st') = created_posts (st_trace st0) ++ [p]
               /\ (n <= n' <= n + 1)%Z /\ daily_ok p
               /\ st_ticks st' = st_ticks st0).
  { intros st0.
    destruct (generate_daily_post_run E st0) as (p & st1 & Hgen & Hp & Ht1).
    pose proof (ticks_generate_daily_post E st0) as Hk1.
    rewrite Hgen in Hk1. cbn [snd] in Hk1.
    rewrite (bind_eq _ _ _ _ _ Hgen).
    destruct (create_post_creates E dry_run p st1)
      as ([ok err] & st2 & Hcreate & Hposts).
    pose proof (ticks_create_post E dry_run p st1) as Hk2.
    rewrite Hcreate in Hk2. cbn [snd] in Hk2.
    rewrite (bind_eq _ _ _ _ _ Hcreate). rewrite Ht1 in Hposts.
    destruct ok; simpl; eexists; eexists; exists p;
      (split; [reflexivity |]); simpl;
      rewrite created_posts_app, Hposts; simpl; rewrite app_nil_r;
      (split; [reflexivity | split; [lia | split; [exact Hp | congruence]]]). }
  destruct (n =? 0)%Z eqn:Hn; simpl.
  - destruct (Hpost st) as (n' & st' & p & Hrun & Hposts & Hle & Hp & Hk).
    exists n', st', [p].
    split; [exact Hrun | split; [exact Hposts | split; [lia |]]].
    split; [exact Hk | now exists p].
  - assert (Hnow : forall B (k : bool -> M B),
               bind (bind (now E) (fun t => ret (dt_hour t >=? 14)%Z)) k st
               = k (dt_hour (env_now E (st_ticks st)) >=? 14)%Z
                   (mkSt (S (st_ticks st)) (st_draws st) (st_subs st)
                         (st_driver st) (st_errors st) (st_file st)
                         (st_trace st)))
      by reflexivity.
    rewrite Hnow.
    destruct (dt_hour (env_now E (st_ticks st)) >=? 14)%Z.
    + match goal with
      | |- context [bind (generate_daily_post E) _ ?s] =>
          destruct (Hpost s) as (n' & st' & p & Hrun & Hposts & Hle & Hp & Hk)
      end.
      exists n', st', [p].
      split; [exact Hrun | split; [exact Hposts | split; [lia |]]].
      split; [exact Hk | now exists p].
    + eexists. eexists. exists []. split; [reflexivity |]. simpl.
      rewrite app_nil_r. repeat split; lia.
Qed.

(** X11: whatever is drawn, the daily post has one of the four catalog kinds
    together with the flair the catalog pairs with that kind, and generating
    it produces no event. *)
Theorem daily_post_kind_and_flair (E : Env) (st : St) :
  exists p st',
    generate_daily_post E st = (Ret p, st')
    /\ In (post_type p, flair p) daily_flairs
    /\ st_trace st' = st_trace st.
Proof.
  destruct (generate_daily_post_run E st) as (p & st' & Hrun & _ & Ht).
  exists p, st'. repeat split; trivial.
  assert (H : hoare (fun _ => True)
                    (fun p => In (post_type p, flair p) daily_flairs)
                    (generate_daily_post E)).
  { unfold generate_daily_post.
    apply (hoare_bind _ (fun t => In t DAILY_CONTENT_TEMPLATES)).
    - intros st0. split; [apply (hoare_choice E _ _ st0) |].
      unfold choice. destruct (nth_error _ _) eqn:Hnth; [| discriminate].
      intros a [= <-]. eapply nth_error_In; eauto.
    - intros t Ht0. apply (hoare_bind _ any); [hoare_auto | intros filled _].
      apply hoare_ret. cbn [post_type flair].
      exact (in_map (fun t => (tpl_type t, tpl_flair t)) _ t Ht0). }
  destruct (H st) as [_ HQ]. apply HQ. now rewrite Hrun.
Qed.

(** ** Creating one post *)

(** X12: [create_post] never raises.  It reports success exactly in dry-run
    or when the submission is accepted, and gives an error message exactly
    otherwise; the submit form is used exactly outside dry-run; a pin is
    attempted exactly when, outside dry-run, the submission was accepted and
    the post asks for it; and [self.errors] grows only when the submission
    raised. *)
Theorem create_post_outcome (E : Env) (dry_run : bool) (post : CommunityPost)
        (st : St) :
  let accepted := match env_submit E (st_subs st) with
                  | SubmitAccepted => true
                  | _ => false
                  end in
  exists err st' evs,
    create_post E dry_run post st = (Ret (dry_run || accepted, err), st')
    /\ st_trace st' = st_trace st ++ evs
    /\ (err = None <-> dry_run || accepted = true)
    /\ (In (ESubmitAttempt post) evs <-> dry_run = false)
    /\ (In EPinAttempt evs
        <-> dry_run = false /\ accepted = true /\ pin post = true)
    /\ (st_errors st' = st_errors st
        \/ exists e, dry_run = false
                     /\ env_submit E (st_subs st) = SubmitRaises e
                     /\ st_errors st'
                        = st_errors st ++ [("Error creating post: " ++ e)%string]).
Proof.
  unfold create_post, pin_post, bind, next_submission, push_error, log, emit, ret.
  destruct dry_run; simpl;
    [| destruct (env_submit E (st_subs st)) as [e| |] eqn:Hsub; simpl;
       [| | destruct (pin post); simpl; [destruct (env_pin_ok E); simpl |]]];
    (eexists; eexists; eexists; split; [reflexivity |]);
    cbn [st_trace st_errors];
    (split; [now rewrite <- ?app_assoc |]); simpl;
    repeat split; intros; try discriminate;
    try solve [intuition discriminate]; try solve [auto 10];
    try solve [right; eexists; repeat split; reflexivity].
Qed.

(** ** What ['posts_made'] counts *)

Lemma posted_count_app (t1 t2 : list Event) :
  posted_count (t1 ++ t2) = posted_count t1 + posted_count t2.
Proof. unfold posted_count. now rewrite filter_app, length_app. Qed.

Lemma posted_count_none (evs : list Event) :
  Forall (fun e => is_posted e = false) evs -> posted_count evs = 0.
Proof.
  unfold posted_count. induction 1 as [|e evs He _ IH]; [reflexivity |].
  simpl. now rewrite He.
Qed.

Lemma no_save_in (evs : list Event) (j : json) :
  Forall (fun e => is_save e = false) evs -> ~ In (ESaveState j) evs.
Proof.
  intros HF Hin. rewrite Forall_forall in HF. now apply HF in Hin.
Qed.

Lemma post_step_no_save (evs : list Event) :
  Forall (fun e => post_step_event e = true) evs ->
  Forall (fun e => is_save e = false) evs.
Proof.
  apply Forall_impl. intros e He. destruct e; trivial; discriminate.
Qed.

Lemma bind_log_ret {A B} (l : LogLine) (a : A) (k : A -> M B) (st : St) :
  bind (bind (log l) (fun _ => ret a)) k st
  = k a (mkSt (st_ticks st) (st_draws st) (st_subs st) (st_driver st)
              (st_errors st) (st_file st) (st_trace st ++ [ELog l])).
Proof. reflexivity. Qed.

Section Tally.

Variable E : Env.

(** The events of one [create_post] report no post as made. *)
Lemma create_post_run (dry_run : bool) (post : CommunityPost) (st : St) :
  exists r st' evs,
    create_post E dry_run post st = (Ret r, st')
    /\ st_trace st' = st_trace st ++ evs
    /\ Forall (fun e => post_step_event e = true) evs
    /\ posted_count evs = 0.
Proof.
  unfold create_post, pin_post, bind, next_submission, push_error, log, emit, ret.
  destruct dry_run; simpl;
    [| destruct (env_submit E (st_subs st)) as [e| |]; simpl;
       [| | destruct (pin post); simpl; [destruct (env_pin_ok E); simpl |]]];
    (eexists; eexists; eexists; split; [reflexivity |]);
    cbn [st_trace];
    (split; [now rewrite <- ?app_assoc |]); simpl;
    (split; [now repeat constructor | reflexivity]).
Qed.

Lemma tallies_post_weekly_threads (dry_run : bool) (today_name : string)
      (threads : list WeeklyThread) :
  forall n, tallies n (post_weekly_threads E dry_run today_name threads n).
Proof.
  induction threads as [|weekly rest IH]; intros n st; simpl.
  - exists n, st, []. rewrite app_nil_r. repeat split; trivial.
    unfold posted_count. simpl. lia.
  - destruct (wt_day weekly =? today_name); [| apply IH].
    rewrite (bind_eq (now E) _ st _ _ eq_refl). cbv beta.
    destruct (dt_hour _ <? 12)%Z.
    + match goal with
      | |- context [bind (create_post E dry_run ?p) _ ?s] =>
          destruct (create_post_run dry_run p s)
            as ([ok err] & st1 & evs1 & Hrun1 & Ht1 & HF1 & Hc1)
      end.
      rewrite (bind_eq _ _ _ _ _ Hrun1). cbv beta. simpl in Ht1.
      destruct ok; cbn [fst snd]; rewrite bind_log_ret;
        match goal with
        | |- context [post_weekly_threads E dry_run today_name rest ?m ?s] =>
            destruct (IH m s) as (n' & st' & evs2 & Hrun2 & Ht2 & HF2 & Hn')
        end;
        simpl in Ht2; rewrite Ht1 in Ht2.
      * exists n', st', (evs1 ++ [ELog (LPostedWeekly (wt_title weekly))] ++ evs2).
        split; [exact Hrun2 |]. split; [now rewrite Ht2, <- !app_assoc |].
        split; [apply Forall_app; split; [exact HF1 | now constructor] |].
        rewrite !posted_count_app, Hc1, Hn'.
        change (posted_count [ELog (LPostedWeekly (wt_title weekly))]) with 1.
        lia.
      * exists n', st', (evs1 ++ [ELog (LFailedWeekly err)] ++ evs2).
        split; [exact Hrun2 |]. split; [now rewrite Ht2, <- !app_assoc |].
        split; [apply Forall_app; split; [exact HF1 | now constructor] |].
        rewrite !posted_count_app, Hc1, Hn'.
        change (posted_count [ELog (LFailedWeekly err)]) with 0.
        lia.
    + match goal with
      | |- context [post_weekly_threads E dry_run today_name rest n ?s] =>
          destruct (IH n s) as (n' & st' & evs & Hrun & Ht & HF & Hn')
      end.
      exists n', st', evs. now repeat split.
Qed.

Lemma tallies_post_daily_content (dry_run : bool) (n : Z) :
  tallies n (post_daily_content E dry_run n).
Proof.
  intros st. unfold post_daily_content.
  assert (Hpost : forall st0,
             exists n' st' evs,
               (daily_post <- generate_daily_post E ;;
                r <- create_post E dry_run daily_post ;;
                if fst r
                then log LPostedDaily ;;; ret (n + 1)%Z
                else log (LFailedDaily (snd r)) ;;; ret n) st0
               = (Ret n', st')
               /\ st_trace st' = st_trace st0 ++ evs
               /\ Forall (fun e => post_step_event e = true) evs
               /\ n' = (n + Z.of_nat (posted_count evs))%Z).
  { intros st0.
    destruct (generate_daily_post_run E st0) as (p & st1 & Hgen & _ & Ht1).
    rewrite (bind_eq _ _ _ _ _ Hgen).
    destruct (create_post_run dry_run p st1)
      as ([ok err] & st2 & evs1 & Hrun1 & Ht2 & HF1 & Hc1).
    rewrite (bind_eq _ _ _ _ _ Hrun1). rewrite Ht1 in Ht2.
    destruct ok; simpl; eexists; eexists.
    - exists (evs1 ++ [ELog LPostedDaily]). split; [reflexivity |]. simpl.
      split; [now rewrite Ht2, <- app_assoc |].
      split; [apply Forall_app; split; [exact HF1 | now repeat constructor] |].
      rewrite posted_count_app, Hc1.
      change (posted_count [ELog LPostedDaily]) with 1. lia.
    - exists (evs1 ++ [ELog (LFailedDaily err)]). split; [reflexivity |]. simpl.
      split; [now rewrite Ht2, <- app_assoc |].
      split; [apply Forall_app; split; [exact HF1 | now repeat constructor] |].
      rewrite posted_count_app, Hc1.
      change (posted_count [ELog (LFailedDaily err)]) with 0. lia. }
  assert (Hskip : exists n' st' evs,
             ret n st = (Ret n', st')
             /\ st_trace st' = st_trace st ++ evs
             /\ Forall (fun e => post_step_event e = true) evs
             /\ n' = (n + Z.of_nat (posted_count evs))%Z).
  { exists n, st, []. rewrite app_nil_r. repeat split; trivial.
    unfold posted_count. simpl. lia. }
  destruct (n =? 0)%Z; simpl.
  - apply Hpost.
  - assert (Hnow : forall B (k : bool -> M B),
               bind (bind (now E) (fun t => ret (dt_hour t >=? 14)%Z)) k st
               = k (dt_hour (env_now E (st_ticks st)) >=? 14)%Z
                   (mkSt (S (st_ticks st)) (st_draws st) (st_subs st)
                         (st_driver st) (st_errors st) (st_file st)
                         (st_trace st)))
      by reflexivity.
    rewrite Hnow.
    destruct (dt_hour (env_now E (st_ticks st)) >=? 14)%Z.
    + match goal with
      | |- context [bind (generate_daily_post E) _ ?s] =>
          destruct (Hpost s) as (n' & st' & evs & Hrun & Ht & HF & Hn')
      end.
      exists n', st', evs. now repeat split.
    + exists n. eexists. exists []. split; [reflexivity |]. simpl.
      rewrite app_nil_r. repeat split; trivial.
      unfold posted_count. simpl. lia.
Qed.

End Tally.

Lemma reply_step_quiet (evs : list Event) :
  Forall (fun e => reply_step_event e = true) evs ->
  posted_count evs = 0 /\ Forall (fun e => is_save e = false) evs.
Proof.
  intros HF. split.
  - apply posted_count_none. eapply Forall_impl; [| exact HF].
    intros e He. destruct e as [| | | | | | | | | |l]; trivial.
    destruct l; trivial; discriminate.
  - eapply Forall_impl; [| exact HF].
    intros e He. destruct e; trivial; discriminate.
Qed.

(** Putting the steps of a session together: the only saves are those of the
    update step, and the posts reported are those of the two posting
    steps. *)
Lemma session_trace_tally (Q : json -> Prop)
      (pre evs1 evs2 evs3 evs4 post : list Event) (j : json) :
  posted_count pre = 0 -> Forall (fun e => is_save e = false) pre ->
  Forall (fun e => post_step_event e = true) evs1 ->
  Forall (fun e => post_step_event e = true) evs2 ->
  Forall (fun e => reply_step_event e = true) evs3 ->
  Forall (fun e => is_posted e = false
                   /\ forall j, e = ESaveState j -> Q j) evs4 ->
  posted_count post = 0 -> Forall (fun e => is_save e = false) post ->
  In (ESaveState j) (pre ++ evs1 ++ evs2 ++ evs3 ++ evs4 ++ post) ->
  Q j
  /\ posted_count (pre ++ evs1 ++ evs2 ++ evs3 ++ evs4 ++ post)
     = posted_count evs1 + posted_count evs2.
Proof.
  intros Hpre Spre H1 H2 H3 H4 Hpost Spost Hin.
  destruct (reply_step_quiet evs3 H3) as [C3 S3].
  assert (C4 : posted_count evs4 = 0).
  { apply posted_count_none. eapply Forall_impl; [| exact H4].
    now intros e [He _]. }
  split.
  - repeat (apply in_app_or in Hin as [Hin | Hin]).
    + now apply no_save_in in Hin.
    + now apply no_save_in in Hin; [| apply post_step_no_save].
    + now apply no_save_in in Hin; [| apply post_step_no_save].
    + now apply no_save_in in Hin.
    + rewrite Forall_forall in H4. now apply (H4 _ Hin).
    + now apply no_save_in in Hin.
  - rewrite !posted_count_app. lia.
Qed.

(** In a session, every saved state holds under ['posts_made'] the number of
    posts the session reports as made. *)
Lemma session_posts_made (E : Env) (dry_run : bool) (today today_name : string)
      (kv : list (string * json)) (st : St) :
  exists evs,
    st_trace (snd (session E dry_run today today_name (JDict kv) st))
    = st_trace st ++ evs
    /\ forall j,
        In (ESaveState j) evs ->
        exists kv',
          j = JDict kv'
          /\ PyDict.lookup "posts_made" kv'
             = Some (JInt (Z.of_nat (posted_count evs))).
Proof.
  destruct (env_setup_ok E && env_cdp_ok E) eqn:Hopen.
  2: { rewrite session_unopened by exact Hopen. eexists.
       split; [reflexivity |]. intros j Hin. simpl in Hin.
       destruct (env_setup_ok E); simpl in Hin; intuition discriminate. }
  apply andb_true_iff in Hopen as [Hsetup Hcdp]. unfold session.
  rewrite (bind_eq _ _ _ _ _ (setup_browser_ok E st Hsetup Hcdp)).
  destruct (env_login_get_ok E) eqn:Hget.
  2: { rewrite (bind_raise _ _ _ _ _ (login_raises E _ Hget)).
       eexists. split; [simpl; rewrite <- !app_assoc; reflexivity |].
       intros j Hin. simpl in Hin. intuition discriminate. }
  rewrite (bind_eq _ _ _ _ _ (login_run E _ Hget)). cbv beta.
  destruct (env_login_ok E); cbn [negb].
  2: { eexists. split; [simpl; rewrite <- !app_assoc; reflexivity |].
       intros j Hin. simpl in Hin. intuition discriminate. }
  match goal with
  | |- context [bind (post_weekly_threads E dry_run today_name
                                          WEEKLY_THREADS 0) _ ?s] =>
      destruct (tallies_post_weekly_threads E dry_run today_name
                  WEEKLY_THREADS 0 s)
        as (n1 & st1 & evs1 & Hrun1 & Ht1 & HF1 & Hn1)
  end.
  rewrite (bind_eq _ _ _ _ _ Hrun1). cbv beta.
  destruct (tallies_post_daily_content E dry_run n1 st1)
    as (n2 & st2 & evs2 & Hrun2 & Ht2 & HF2 & Hn2).
  rewrite (bind_eq _ _ _ _ _ Hrun2). cbv beta.
  destruct (reply_to_comments_step E (fun e => reply_step_event e = true)
              (fun e He => He) dry_run 3 st2) as [(evs3 & Ht3 & HF3 & _) _].
  set (Q := fun s => exists kv', s = JDict kv'
                                 /\ PyDict.lookup "posts_made" kv'
                                    = Some (JInt n2)).
  simpl in Ht1. rewrite Ht1 in Ht2. rewrite Ht2 in Ht3.
  assert (Hn : n2 = Z.of_nat (posted_count evs1 + posted_count evs2)) by lia.
  assert (Htally : forall evs4 post j,
             Forall (fun e => is_posted e = false
                              /\ forall j, e = ESaveState j -> Q j) evs4 ->
             posted_count post = 0 ->
             Forall (fun e => is_save e = false) post ->
             In (ESaveState j)
                ([ELog LSettingUp; EOpenSession; ELog LLoggingIn; ELogin]
                 ++ evs1 ++ evs2 ++ evs3 ++ evs4 ++ post) ->
             exists kv',
               j = JDict kv'
               /\ PyDict.lookup "posts_made" kv'
                  = Some (JInt (Z.of_nat
                                  (posted_count
                                     ([ELog LSettingUp; EOpenSession;
                                       ELog LLoggingIn; ELogin]
                                      ++ evs1 ++ evs2 ++ evs3 ++ evs4 ++ post))))).
  { intros evs4 post j HF4 Cpost Spost Hin.
    destruct (session_trace_tally Q
                [ELog LSettingUp; EOpenSession; ELog LLoggingIn; ELogin]
                evs1 evs2 evs3 evs4 post j eq_refl
                ltac:(now repeat constructor) HF1 HF2 HF3 HF4 Cpost Spost Hin)
      as [(kv' & -> & Hkv') Hcount].
    exists kv'. split; [reflexivity |]. now rewrite Hcount, <- Hn. }
  destruct (reply_to_comments E dry_run 3 st2) as [[[]|e3] st3] eqn:Hrun3;
    simpl in Ht3.
  2: { rewrite (bind_raise _ _ _ _ _ Hrun3). simpl. rewrite Ht3.
       exists ([ELog LSettingUp; EOpenSession; ELog LLoggingIn; ELogin]
               ++ evs1 ++ evs2 ++ evs3 ++ [] ++ []).
       split; [now rewrite !app_nil_r, <- !app_assoc |].
       intros j Hin. apply (Htally [] [] j); trivial; constructor. }
  rewrite (bind_eq _ _ _ _ _ Hrun3). cbv beta.
  destruct (update_state_saves E
              (fun e => is_posted e = false /\ forall j, e = ESaveState j -> Q j)
              Q today today_name n2 (JDict kv)) with (st := st3)
    as [(evs4 & Ht4 & HF4 & _) _].
  { intros s1 s2 previous s3 [= <-] [= <-] _ [= <-].
    eexists. split; [reflexivity |].
    rewrite lookup_store_other by discriminate. apply lookup_store_same. }
  { intros s v s' (kv' & -> & Hkv') [= <-].
    eexists. split; [reflexivity |].
    now rewrite lookup_store_other by discriminate. }
  { intros s Hs _. split; [reflexivity |]. now intros j [= <-]. }
  { intros part _. split; [reflexivity |]. intros j Hj. discriminate. }
  { split; [reflexivity |]. intros j Hj. discriminate. }
  rewrite Ht3 in Ht4.
  destruct (update_state E today today_name n2 (JDict kv) st3)
    as [[[]|e] st4] eqn:Hrun4; simpl in Ht4.
  - rewrite (bind_eq _ _ _ _ _ Hrun4). simpl. rewrite Ht4.
    exists ([ELog LSettingUp; EOpenSession; ELog LLoggingIn; ELogin]
            ++ evs1 ++ evs2 ++ evs3 ++ evs4 ++ [ELog (LComplete n2)]).
    split; [now rewrite <- !app_assoc |].
    intros j Hin. apply (Htally evs4 [ELog (LComplete n2)] j); trivial.
    now repeat constructor.
  - rewrite (bind_raise _ _ _ _ _ Hrun4). simpl. rewrite Ht4.
    exists ([ELog LSettingUp; EOpenSession; ELog LLoggingIn; ELogin]
            ++ evs1 ++ evs2 ++ evs3 ++ evs4 ++ []).
    split; [now rewrite app_nil_r, <- !app_assoc |].
    intros j Hin. apply (Htally evs4 [] j); trivial; try constructor.
Qed.

(** X13: every state an invocation saves holds under ['posts_made'] the
    number of posts the invocation reports as made (its "Posted weekly
    thread" and "Posted daily content" lines), in either mode. *)
Theorem posts_made_counts_posted (E : Env) (dry_run : bool) (f : StateFile)
        (j : json) :
  In (ESaveState j) (st_trace (snd (invoke E dry_run f))) ->
  exists kv',
    j = JDict kv'
    /\ PyDict.lookup "posts_made" kv'
       = Some (JInt (Z.of_nat
                       (posted_count (st_trace (snd (invoke E dry_run f)))))).
Proof.
  destruct (invoke_cases E dry_run f)
    as [[_ ->] | [(kv & _ & _ & ->) | (kv & _ & _ & ->)]]; cbn [snd st_trace].
  - intros Hin. exfalso. destruct f; simpl in Hin; intuition discriminate.
  - intros Hin. exfalso. destruct f; simpl in Hin; intuition discriminate.
  - match goal with
    | |- context [try_finally (session E dry_run ?today ?name (JDict kv))
                              (quit_driver E) ?st0] =>
        destruct (try_finally_quit E (session E dry_run today name (JDict kv))
                    st0) as (qevs & -> & Hq & _);
        destruct (session_posts_made E dry_run today name kv st0)
          as (evs & -> & Hsaved)
    end.
    cbn [st_trace].
    assert (Hpre : posted_count (load_prefix f) = 0
                   /\ forall j0, ~ In (ESaveState j0) (load_prefix f)).
    { destruct f; split; trivial; intros j1 Hin; simpl in Hin;
        intuition discriminate. }
    destruct Hpre as [Cpre Spre].
    assert (Cq : posted_count qevs = 0).
    { apply posted_count_none. eapply Forall_impl; [| exact Hq].
      now intros e ->. }
    rewrite !posted_count_app, Cpre, Cq. intros Hin.
    rewrite Forall_forall in Hq.
    apply in_app_or in Hin as [Hin | Hin];
      [apply in_app_or in Hin as [Hin | Hin] |].
    + now apply Spre in Hin.
    + destruct (Hsaved j Hin) as (kv' & -> & Hkv').
      exists kv'. split; [reflexivity |]. rewrite Hkv'.
      repeat f_equal. lia.
    + apply Hq in Hin. discriminate.
Qed.

Lemma posts_made_counts_posted_witness :
  exists kv',
    JDict [("last_run", JStr "2024-01-01"); ("posts_made", JInt 1);
           ("weekly_threads", JDict [("monday", JStr "2024-01-01T09:00:00")])]
    = JDict kv'
    /\ PyDict.lookup "posts_made" kv'
       = Some (JInt (Z.of_nat
                       (posted_count
                          (st_trace (snd (invoke Sample.weekly_fails false
                                                 FileMissing)))))).
Proof.
  apply (posts_made_counts_posted Sample.weekly_fails false FileMissing).
  vm_compute. auto 40.
Defined.

(** ** What the tracking loop records *)

(** X14: over a state whose weekly log is a dict, the tracking loop returns;
    when the counter is positive and the catalog has a thread for today's
    name it records under that name the timestamp of a clock reading it
    takes itself, and otherwise it reads no clock and leaves the state as it
    is.  The counter is the one of the whole run (weekly and daily posts),
    and the hour plays no part. *)
Theorem tracking_follows_the_counter (E : Env) (today_name : string)
        (posts_made : Z) (threads : list WeeklyThread) :
  forall kv d st,
    PyDict.lookup "weekly_threads" kv = Some (JDict d) ->
    exists kv' d' st',
      track_weekly_threads E today_name posts_made threads (JDict kv) st
      = (Ret (JDict kv'), st')
      /\ PyDict.lookup "weekly_threads" kv' = Some (JDict d')
      /\ if (posts_made >? 0)%Z
            && existsb (fun w => wt_day w =? today_name) threads
         then exists k,
             st_ticks st <= k < st_ticks st'
             /\ PyDict.lookup today_name d' = Some (JStr (dt_iso (env_now E k)))
         else kv' = kv /\ st' = st.
Proof.
  induction threads as [|weekly rest IH]; intros kv d st Hd.
  - exists kv, d, st. simpl. rewrite andb_false_r. now repeat split.
  - simpl.
    destruct (String.eqb_spec (wt_day weekly) today_name) as [Hday | Hday];
      simpl; [| exact (IH kv d st Hd)].
    destruct (posts_made >? 0)%Z eqn:Hpos; simpl.
    2: { destruct (IH kv d st Hd) as (kv' & d' & st' & Hrun & Hd' & Hres).
         rewrite ?Hpos in Hres. simpl in Hres. now exists kv', d', st'. }
    rewrite (bind_eq (now E) _ st _ _ eq_refl). cbv beta. rewrite Hd.
    rewrite bind_lift_ret. cbn [PyDict.setitem].
    rewrite bind_lift_ret. cbn [PyDict.setitem]. rewrite bind_lift_ret.
    match goal with
    | |- context [track_weekly_threads E today_name posts_made rest
                                       (JDict ?kv1) ?st1] =>
        destruct (IH kv1 (PyDict.store (wt_day weekly)
                                       (JStr (dt_iso (env_now E (st_ticks st)))) d)
                     st1 (lookup_store_same _ _ _))
          as (kv' & d' & st' & Hrun & Hd' & Hres)
    end.
    exists kv', d', st'. split; [exact Hrun |]. split; [exact Hd' |].
    rewrite ?Hpos in Hres. simpl in Hres.
    destruct (existsb _ rest).
    + destruct Hres as (k & Hk & Hlook). exists k. simpl in Hk. split; [lia |].
      exact Hlook.
    + destruct Hres as [-> ->]. exists (st_ticks st). simpl. split; [lia |].
      rewrite lookup_store_same in Hd'. injection Hd' as <-.
      rewrite Hday. apply lookup_store_same.
Qed.

Lemma tracking_follows_the_counter_witness :
  exists kv' d' st',
    track_weekly_threads Sample.afternoon "monday" 1 WEEKLY_THREADS
                         (JDict [("weekly_threads", JDict [])])
                         (init_state FileMissing)
    = (Ret (JDict kv'), st')
    /\ PyDict.lookup "weekly_threads" kv' = Some (JDict d')
    /\ exists k,
        0 <= k < st_ticks st'
        /\ PyDict.lookup "monday" d'
           = Some (JStr (dt_iso (env_now Sample.afternoon k))).
Proof.
  apply (tracking_follows_the_counter Sample.afternoon "monday" 1
           WEEKLY_THREADS [("weekly_threads", JDict [])] []
           (init_state FileMissing) eq_refl).
Defined.

(** ** How many replies a run submits *)

Lemma replies_submitted_none (evs : list Event) :
  Forall (fun e => is_reply_submit e = false) evs -> replies_submitted evs = [].
Proof.
  induction 1 as [|e evs He _ IH]; [reflexivity |].
  destruct e; simpl; trivial; discriminate.
Qed.

Section Submits.

Context {A B : Type}.

Lemma submits_of_hoare (Q : A -> Prop) (m : M A) :
  hoare (fun e => is_reply_submit e = false) Q m -> submits 0 m.
Proof.
  intros Hm st. destruct (Hm st) as [(evs & -> & HF & _) _].
  rewrite replies_submitted_app, (replies_submitted_none evs HF), app_nil_r. lia.
Qed.

Lemma submits_bind (n n' : nat) (m : M A) (k : A -> M B) :
  submits n m -> (forall a, submits n' (k a)) -> submits (n + n') (bind m k).
Proof.
  intros Hm Hk st. unfold bind. specialize (Hm st).
  destruct (m st) as [[a|e] st1]; simpl in *; [| lia].
  specialize (Hk a st1). lia.
Qed.

Lemma submits_try_finally (n : nat) (body : M A) (fin : M unit) :
  submits n body -> submits 0 fin -> submits n (try_finally body fin).
Proof.
  intros Hb Hf st. unfold try_finally. specialize (Hb st).
  destruct (body st) as [r st1]. specialize (Hf st1).
  destruct (fin st1) as [[[]|e] st2]; simpl in *; lia.
Qed.

End Submits.

Lemma submits_reply_to_comments (E : Env) (dry_run : bool) (max_replies : Z) :
  submits (Z.to_nat max_replies) (reply_to_comments E dry_run max_replies).
Proof.
  intros st. destruct dry_run.
  - simpl. rewrite !replies_submitted_app. simpl. rewrite !app_nil_r. lia.
  - destruct (reply_to_comments_bound E max_replies st)
      as (st' & sub & Hrun & Hsub & Hlen).
    rewrite Hrun. simpl. rewrite Hsub, length_app. lia.
Qed.

Lemma submits_session (E : Env) (dry_run : bool) (today today_name : string)
      (state : json) :
  submits 3 (session E dry_run today today_name state).
Proof.
  assert (Hpost : forall e, post_step_event e = true -> is_reply_submit e = false)
    by (intros e He; destruct e; trivial; discriminate).
  assert (Hupd : forall e, update_step_event e = true -> is_reply_submit e = false)
    by (intros e He; destruct e; trivial; discriminate).
  unfold session.
  apply (submits_bind 0 3).
  { apply (submits_of_hoare any). now apply hoare_setup_browser. }
  intros _. apply (submits_bind 0 3).
  { eapply submits_of_hoare. now apply hoare_login. }
  intros logged_in. destruct (negb logged_in).
  { intros st. simpl. rewrite replies_submitted_app. simpl.
    rewrite app_nil_r. lia. }
  apply (submits_bind 0 3).
  { apply (submits_of_hoare any). now apply post_weekly_threads_step. }
  intros n. apply (submits_bind 0 3).
  { apply (submits_of_hoare any). now apply post_daily_content_step. }
  intros n'. apply (submits_bind 3 0);
    [apply (submits_reply_to_comments E dry_run 3) |].
  intros _. apply (submits_bind 0 0).
  { apply (submits_of_hoare any). now apply update_state_step. }
  intros _. apply (submits_of_hoare any). now apply hoare_log.
Qed.

(** X15: an invocation submits at most three replies, whatever the listing
    holds and whatever the reply actions do. *)
Theorem at_most_three_replies_a_run (E : Env) (dry_run : bool) (f : StateFile) :
  length (replies_submitted (st_trace (snd (invoke E dry_run f)))) <= 3.
Proof.
  destruct (invoke_cases E dry_run f)
    as [[_ ->] | [(kv & _ & _ & ->) | (kv & _ & _ & ->)]]; cbn [snd st_trace].
  - destruct f; simpl; lia.
  - destruct f; simpl; lia.
  - match goal with
    | |- context [try_finally (session E dry_run ?today ?name ?state)
                              (quit_driver E) ?st0] =>
        pose proof (submits_try_finally _ _ (quit_driver E)
                      (submits_session E dry_run today name state)
                      (submits_of_hoare any _
                         (hoare_quit_driver _ _ eq_refl)) st0) as H
    end.
    cbn [st_trace] in H.
    assert (replies_submitted (load_prefix f) = []) as H0
        by (destruct f; reflexivity).
    rewrite H0 in H. change (length (@nil Comment)) with 0 in H. lia.
Qed.

(** ** A listing that does not open *)




